(** * Dogs-Life-Lern-App: CSV question import and quiz session

    A shallow embedding of the two pieces of logic of the application:

    - [AdminDashboard.tsx]: [parseCSV] and the body of [handleFileUpload]
      (the CSV ingestion pipeline);
    - [QuizGame.tsx]: the state of the [QuizGame] component, its handlers,
      the controls it renders and its countdown effect.

    JavaScript strings are modelled as [string]: every [ascii] stands for one
    UTF-16 code unit below 256 (Latin-1), so the code unit 252 is the
    letter u-umlaut.  Code units above 255 are outside the model. *)

From Stdlib Require Import ZArith Ascii String List Lia Bool DecimalString.
From stdpp Require Import base gmap list strings.
Import ListNotations.

Local Open Scope string_scope.
Local Open Scope list_scope.

(** ** The JavaScript string operations the program calls *)

Module Js.

Definition dquote : ascii := "034"%char.
Definition comma : ascii := ","%char.
Definition semicolon : ascii := ";"%char.
Definition newline : ascii := "010"%char.

(** [WhiteSpace] and [LineTerminator] code units below 256: TAB, LF, VT,
    FF, CR, SP and NBSP.  These are what [String.prototype.trim] strips. *)
Definition is_whitespace (c : ascii) : bool :=
  match nat_of_ascii c with
  | 9 | 10 | 11 | 12 | 13 | 32 | 160 => true
  | _ => false
  end.

Definition is_empty (s : string) : bool :=
  match s with
  | EmptyString => true
  | String _ _ => false
  end.

(** A non-empty string is truthy. *)
Definition truthy (s : string) : bool := negb (is_empty s).

Fixpoint trimStart (s : string) : string :=
  match s with
  | EmptyString => EmptyString
  | String c r => if is_whitespace c then trimStart r else s
  end.

Fixpoint trimEnd (s : string) : string :=
  match s with
  | EmptyString => EmptyString
  | String c r =>
      let r' := trimEnd r in
      if is_whitespace c && is_empty r' then EmptyString else String c r'
  end.

Definition trim (s : string) : string := trimEnd (trimStart s).

(** [s.split(sep)] for a one-character separator: the result is never
    empty, and [n] separators give [n + 1] pieces. *)
Fixpoint split (sep : ascii) (s : string) : list string :=
  match s with
  | EmptyString => [EmptyString]
  | String c r =>
      if Ascii.eqb c sep then EmptyString :: split sep r
      else match split sep r with
           | piece :: pieces => String c piece :: pieces
           | [] => [String c EmptyString]
           end
  end.

(** [toLowerCase] on Latin-1: A-Z and the accented capitals 192-222
    (without the multiplication sign 215) move up by 32. *)
Definition lower_char (c : ascii) : ascii :=
  let n := nat_of_ascii c in
  if (65 <=? n)%nat && (n <=? 90)%nat then ascii_of_nat (n + 32)
  else if (192 <=? n)%nat && (n <=? 222)%nat && negb (n =? 215)%nat
       then ascii_of_nat (n + 32)
       else c.

Fixpoint toLowerCase (s : string) : string :=
  match s with
  | EmptyString => EmptyString
  | String c r => String (lower_char c) (toLowerCase r)
  end.

(** The first [replace] of [parseCSV]: its global pattern matches a quote
    at the start of the string or a quote at its end, and replaces it by
    nothing.  The first alternative can only match at index 0 and the
    second only at the last index; a match consumes its quote, so a
    string that is one quote loses it once. *)
Fixpoint drop_final_quote (s : string) : string :=
  match s with
  | EmptyString => EmptyString
  | String c r =>
      if is_empty r then (if Ascii.eqb c dquote then EmptyString else s)
      else String c (drop_final_quote r)
  end.

Definition strip_outer_quotes (s : string) : string :=
  match s with
  | EmptyString => EmptyString
  | String c r =>
      if Ascii.eqb c dquote then drop_final_quote r else drop_final_quote s
  end.

(** The second [replace] of [parseCSV]: every pair of adjacent quotes
    becomes one quote, left to right, without overlap. *)
Fixpoint unescape_quotes (s : string) : string :=
  match s with
  | EmptyString => EmptyString
  | String c1 r1 =>
      match r1 with
      | EmptyString => s
      | String c2 r2 =>
          if Ascii.eqb c1 dquote && Ascii.eqb c2 dquote
          then String dquote (unescape_quotes r2)
          else String c1 (unescape_quotes r1)
      end
  end.

(** [s.includes(c)] for a one-character needle. *)
Fixpoint has_char (c : ascii) (s : string) : bool :=
  match s with
  | EmptyString => false
  | String d r => Ascii.eqb d c || has_char c r
  end.

(** [s.includes(sub)]: [sub] occurs somewhere in [s]. *)
Fixpoint includes (sub s : string) : bool :=
  String.prefix sub s ||
  match s with
  | EmptyString => false
  | String _ r => includes sub r
  end.

(** [arr.includes(x)] on an array of strings. *)
Definition arr_includes (arr : list string) (x : string) : bool :=
  existsb (String.eqb x) arr.

End Js.

(** ** AdminDashboard.tsx: the CSV import *)

Record CsvRow := mkCsvRow {
  question : string;
  row_question_type : string;
  answers_field : string;
  correct_answers_field : string;
  row_category : string
}.

Inductive QuestionType := single_choice | multiple_choice.

(** What [CATEGORY_MAP[category] || category] evaluates to.  [CATEGORY_MAP]
    is a plain object, so a key that names a member of [Object.prototype]
    finds that member, which is truthy and not a string. *)
Inductive JsCategory :=
| CatString (s : string)
| CatInherited (key : string).

(** [Question] of [types.ts]; the import builds it as a [Partial<Question>]
    without [id] (storage assigns the id), the quiz reads questions that
    have one. *)
Record Question := mkQuestion {
  id : option Z;
  question_text : string;
  question_type : QuestionType;
  all_answers : list string;
  correct_answers : list string;
  category : JsCategory
}.

Inductive ImportOutcome :=
| ImportError (message : string)
| Imported (questionsToInsert : list Question) (skippedCount : nat).

Module AdminDashboard.

Definition u_umlaut : ascii := "252"%char.

Definition Hundefuehrerschein : string :=
  "Hundef" +:+ String u_umlaut "hrerschein".

Definition object_prototype_keys : list string :=
  [ "constructor"; "__defineGetter__"; "__defineSetter__"; "hasOwnProperty";
    "__lookupGetter__"; "__lookupSetter__"; "isPrototypeOf";
    "propertyIsEnumerable"; "toString"; "valueOf"; "__proto__";
    "toLocaleString" ].

Definition Trainerpruefung : string :=
  "Trainerpr" +:+ String u_umlaut "fung".

(** [CATEGORY_MAP[category] || category]. *)
Definition CATEGORY_MAP_or (category : string) : JsCategory :=
  if String.eqb category "Koalatest" then CatString Hundefuehrerschein
  else if String.eqb category "Hundetrainer Testfragen"
       then CatString Trainerpruefung
  else if Js.arr_includes object_prototype_keys category
       then CatInherited category
  else CatString category.

(** *** [parseCSV] *)

(** The inner [for] loop over the characters of [currentLine], with its
    three variables [inQuote], [buffer] and [matches]; the final
    [matches.push(buffer)] is the base case. *)
Fixpoint scan (chars : string) (inQuote : bool) (buffer : string)
         (matches : list string) : list string :=
  match chars with
  | EmptyString => matches ++ [buffer]
  | String char rest =>
      if Ascii.eqb char Js.dquote then
        scan rest (negb inQuote) buffer matches
      else if Ascii.eqb char Js.comma && negb inQuote then
        scan rest inQuote EmptyString (matches ++ [buffer])
      else
        scan rest inQuote (buffer +:+ String char EmptyString) matches
  end.

(** The callback of [matches.map]: [trim], the two [replace] calls, and
    [trim] again. *)
Definition clean (m : string) : string :=
  Js.trim (Js.unescape_quotes (Js.strip_outer_quotes (Js.trim m))).

Definition tokenize (currentLine : string) : list string :=
  map clean (scan currentLine false EmptyString []).

(** One turn of the outer loop: [result] after the line [lines[i]]. *)
Definition parseCSV_line (result : list CsvRow) (line : string)
  : list CsvRow :=
  let currentLine := Js.trim line in
  if Js.is_empty currentLine then result
  else
    let values := tokenize currentLine in
    if (5 <=? length values)%nat then
      result ++ [ {| question := nth 0 values "";
                     row_question_type := nth 1 values "";
                     answers_field := nth 2 values "";
                     correct_answers_field := nth 3 values "";
                     row_category := nth 4 values "" |} ]
    else result.

(** The outer loop starts at [i = 1]: [lines[0]] is never looked at. *)
Definition parseCSV_lines (lines : list string) : list CsvRow :=
  fold_left parseCSV_line (drop 1 lines) [].

Definition parseCSV (text : string) : list CsvRow :=
  parseCSV_lines (Js.split Js.newline text).

(** *** The body of [reader.onload] in [handleFileUpload] *)

(** [s.split(';').map(s => s.trim()).filter(Boolean)] *)
Definition split_list (s : string) : list string :=
  filter (fun t => Is_true (Js.truthy t)) (map Js.trim (Js.split Js.semicolon s)).

(** [qType] after the two lines that normalize the type. *)
Definition normalize_type (raw : string) : string :=
  let qType := if Js.truthy raw then Js.trim raw else "" in
  let qType :=
    if String.eqb (Js.toLowerCase qType) "single choice"
    then "single_choice" else qType in
  let qType :=
    if String.eqb (Js.toLowerCase qType) "multiple choice"
    then "multiple_choice" else qType in
  qType.

(** The callback of [rows.map]: the draft or [null], and the new value of
    the captured counter [skippedCount]. *)
Definition convert_row (row : CsvRow) (skippedCount : nat)
  : option Question * nat :=
  let qType := normalize_type (row_question_type row) in
  if negb (String.eqb qType "single_choice")
     && negb (String.eqb qType "multiple_choice")
  then (None, S skippedCount)
  else
    let category :=
      if Js.truthy (row_category row) then Js.trim (row_category row)
      else "" in
    (Some {| id := None;
             question_text := question row;
             question_type :=
               if String.eqb qType "single_choice" then single_choice
               else multiple_choice;
             all_answers := split_list (answers_field row);
             correct_answers := split_list (correct_answers_field row);
             category := CATEGORY_MAP_or category |},
     skippedCount).

(** [rows.map(...)], threading [skippedCount] from left to right. *)
Fixpoint map_rows (rows : list CsvRow) (skippedCount : nat)
  : list (option Question) * nat :=
  match rows with
  | [] => ([], skippedCount)
  | row :: rest =>
      let '(q, skippedCount) := convert_row row skippedCount in
      let '(qs, skippedCount) := map_rows rest skippedCount in
      (q :: qs, skippedCount)
  end.

(** The predicate of [.filter(...)]:
    [q !== null && !!q.question_text && (q.all_answers?.length || 0) > 0] *)
Definition keep (q : option Question) : bool :=
  match q with
  | None => false
  | Some d => Js.truthy (question_text d) && (0 <? length (all_answers d))%nat
  end.

Definition keep_all (qs : list (option Question)) : list Question :=
  omap (fun q => if keep q then q else None) qs.

(** [questionsToInsert] and [skippedCount] as they stand at line 84. *)
Definition process (text : string) : list Question * nat :=
  let rows := parseCSV text in
  let '(mapped, skippedCount) := map_rows rows 0 in
  (keep_all mapped, skippedCount).

Definition accepted (text : string) : list Question := fst (process text).
Definition skipped (text : string) : nat := snd (process text).

Definition msg_all_skipped : string := "All rows were skipped due to errors.".
Definition msg_none_valid : string := "No valid questions found.".

(** The [try] block up to the call of [bulkInsertQuestions]: either the
    [Error] thrown at line 85 or the batch handed to the storage call. *)
Definition ingest (text : string) : ImportOutcome :=
  let '(questionsToInsert, skippedCount) := process text in
  if (length questionsToInsert =? 0)%nat then
    ImportError (if (0 <? skippedCount)%nat then msg_all_skipped
                 else msg_none_valid)
  else Imported questionsToInsert skippedCount.

(** [reader.onload]: an empty text returns before the [try] block, with
    neither an error nor an import ([None]). *)
Definition onload (text : string) : option ImportOutcome :=
  if Js.truthy text then Some (ingest text) else None.

(** *** The validation of [handleSave] (the editor's save path) *)

(** [!!editingQuestion.category] *)
Definition category_truthy (c : JsCategory) : bool :=
  match c with
  | CatString s => Js.truthy s
  | CatInherited _ => true
  end.

(** [handleSave] goes on to [upsertQuestion] only when this holds;
    otherwise it alerts that at least 2 answers are required and
    returns. *)
Definition handleSave_passes (editingQuestion : Question) : bool :=
  negb (negb (Js.truthy (question_text editingQuestion))
        || negb (category_truthy (category editingQuestion))
        || (length (all_answers editingQuestion) <? 2)%nat).

(** *** Sample files *)

Definition header : string :=
  "question,question_type,answers,correct_answers,category".

Definition lines_of (lines : list string) : string :=
  String.concat (String Js.newline "") lines.

Definition quoted (s : string) : string :=
  String Js.dquote s +:+ String Js.dquote "".

(** A single-choice row whose correct answers are two strings that are
    not among its answers. *)
Definition file_wrong_correct : string :=
  lines_of [header; "Sit,single choice,Sitz;Platz,Steh;Bleib,Koalatest"].

Definition question_wrong_correct : Question :=
  {| id := None;
     question_text := "Sit";
     question_type := single_choice;
     all_answers := ["Sitz"; "Platz"];
     correct_answers := ["Steh"; "Bleib"];
     category := CatString Hundefuehrerschein |}.

(** A row with a single answer. *)
Definition file_one_answer : string :=
  lines_of [header; "Sit,single choice,Sitz,Sitz,Koalatest"].

Definition question_one_answer : Question :=
  {| id := None;
     question_text := "Sit";
     question_type := single_choice;
     all_answers := ["Sitz"];
     correct_answers := ["Sitz"];
     category := CatString Hundefuehrerschein |}.

(** A quoted first field with doubled quotes around the word hi. *)
Definition field_doubled_quotes : string :=
  quoted ("She said " +:+ quoted (quoted "hi") +:+ ".").

Definition file_doubled_quotes : string :=
  lines_of [header;
            field_doubled_quotes +:+ ",single choice,Ja;Nein,Ja,Koalatest"].

(** A file whose only row has the type essay, and a file with a row of
    three fields between two good rows. *)
Definition file_essay : string :=
  lines_of [header; "Sit,essay,Sitz;Platz,Sitz,Koalatest"].

Definition file_short_line : string :=
  lines_of [header; "Sit,single choice,Sitz;Platz,Sitz,Koalatest";
            "Platz,multiple choice,Ja";
            "Bleib,multiple choice,Ja;Nein,Ja;Nein,Hundetrainer Testfragen"].

(** *** The question table: [handleDelete] and [filteredQuestions] *)

(** The [questions] state after [handleDelete(id)]: the list changes only
    when the user confirmed and [deleteQuestion] did not throw. *)
Definition handleDelete (confirmed deleted : bool) (i : Z)
           (questions : list Question) : list Question :=
  if confirmed && deleted
  then filter (fun q => id q ≠ Some i) questions
  else questions.

(** [q.category === filterCategory] *)
Definition category_is (c : JsCategory) (filterCategory : string) : bool :=
  match c with
  | CatString s => String.eqb s filterCategory
  | CatInherited _ => false
  end.

Definition matchesCategory (filterCategory : string) (q : Question) : bool :=
  if Js.truthy filterCategory then category_is (category q) filterCategory
  else true.

Definition matchesSearch (searchTerm : string) (q : Question) : bool :=
  if Js.truthy searchTerm
  then Js.includes (Js.toLowerCase searchTerm)
                   (Js.toLowerCase (question_text q))
  else true.

Definition filteredQuestions (questions : list Question)
           (filterCategory searchTerm : string) : list Question :=
  List.filter (fun q => matchesCategory filterCategory q
                        && matchesSearch searchTerm q) questions.

(** *** The editor of one question *)

(** The question that [handleAddNew] opens the editor with. *)
Definition handleAddNew : Question :=
  {| id := None;
     question_text := "";
     question_type := single_choice;
     all_answers := [""];
     correct_answers := [];
     category := CatString Hundefuehrerschein |}.

(** The [onChange] of the radio button or checkbox beside [answer]. *)
Definition onCorrectChange (answer : string) (checked : bool)
           (editingQuestion : Question) : Question :=
  let newCorrect :=
    match question_type editingQuestion with
    | single_choice => [answer]
    | multiple_choice =>
        if checked then correct_answers editingQuestion ++ [answer]
        else filter (fun a => a ≠ answer) (correct_answers editingQuestion)
    end in
  {| id := id editingQuestion;
     question_text := question_text editingQuestion;
     question_type := question_type editingQuestion;
     all_answers := all_answers editingQuestion;
     correct_answers := newCorrect;
     category := category editingQuestion |}.

(** The [onChange] of the text input of the answer at [idx], whose text
    was [oldVal]. *)
Definition onAnswerChange (idx : nat) (oldVal value : string)
           (editingQuestion : Question) : Question :=
  let newAnswers := <[idx := value]> (all_answers editingQuestion) in
  let newCorrect :=
    if Js.arr_includes (correct_answers editingQuestion) oldVal
    then filter (fun c => c ≠ oldVal) (correct_answers editingQuestion)
         ++ [value]
    else correct_answers editingQuestion in
  {| id := id editingQuestion;
     question_text := question_text editingQuestion;
     question_type := question_type editingQuestion;
     all_answers := newAnswers;
     correct_answers := newCorrect;
     category := category editingQuestion |}.

(** The [onClick] of the remove button of the answer at [idx]. *)
Definition onAnswerRemove (idx : nat) (answer : string)
           (editingQuestion : Question) : Question :=
  {| id := id editingQuestion;
     question_text := question_text editingQuestion;
     question_type := question_type editingQuestion;
     all_answers := delete idx (all_answers editingQuestion);
     correct_answers :=
       filter (fun c => c ≠ answer) (correct_answers editingQuestion);
     category := category editingQuestion |}.

(** The [onClick] of the button that adds an option. *)
Definition onAddOption (editingQuestion : Question) : Question :=
  {| id := id editingQuestion;
     question_text := question_text editingQuestion;
     question_type := question_type editingQuestion;
     all_answers := all_answers editingQuestion ++ [""];
     correct_answers := correct_answers editingQuestion;
     category := category editingQuestion |}.

(** The [onChange] of the type select: the correct answers are reset. *)
Definition onTypeChange (t : QuestionType) (editingQuestion : Question)
  : Question :=
  {| id := id editingQuestion;
     question_text := question_text editingQuestion;
     question_type := t;
     all_answers := all_answers editingQuestion;
     correct_answers := [];
     category := category editingQuestion |}.

Definition onTextChange (value : string) (editingQuestion : Question)
  : Question :=
  {| id := id editingQuestion;
     question_text := value;
     question_type := question_type editingQuestion;
     all_answers := all_answers editingQuestion;
     correct_answers := correct_answers editingQuestion;
     category := category editingQuestion |}.

Definition onCategoryChange (value : string) (editingQuestion : Question)
  : Question :=
  {| id := id editingQuestion;
     question_text := question_text editingQuestion;
     question_type := question_type editingQuestion;
     all_answers := all_answers editingQuestion;
     correct_answers := correct_answers editingQuestion;
     category := CatString value |}.

(** What the user can do in the open editor.  The controls of an answer
    exist once per index of [all_answers]. *)
Inductive EditorAction :=
| CorrectChange (idx : nat) (checked : bool)
| AnswerChange (idx : nat) (value : string)
| AnswerRemove (idx : nat)
| AddOption
| TypeChange (t : QuestionType)
| TextChange (value : string)
| CategoryChange (value : string).

(** The handler of an action, with the answer of the row it belongs to;
    an index without row has no control. *)
Definition edit (editingQuestion : Question) (a : EditorAction) : Question :=
  match a with
  | CorrectChange idx checked =>
      match all_answers editingQuestion !! idx with
      | Some answer => onCorrectChange answer checked editingQuestion
      | None => editingQuestion
      end
  | AnswerChange idx value =>
      match all_answers editingQuestion !! idx with
      | Some oldVal => onAnswerChange idx oldVal value editingQuestion
      | None => editingQuestion
      end
  | AnswerRemove idx =>
      match all_answers editingQuestion !! idx with
      | Some answer => onAnswerRemove idx answer editingQuestion
      | None => editingQuestion
      end
  | AddOption => onAddOption editingQuestion
  | TypeChange t => onTypeChange t editingQuestion
  | TextChange value => onTextChange value editingQuestion
  | CategoryChange value => onCategoryChange value editingQuestion
  end.

End AdminDashboard.

(** ** QuizGame.tsx: the quiz session *)

Inductive Phase := InProgress | ConfirmingFinish | Finished.

Module QuizGame.

(** [UserAnswers]: the object that maps a question id to the array of the
    selected options.  A question without id is stored under the key
    [undefined], here [None]. *)
Abbreviation UserAnswers := (gmap (option Z) (list string)).

Record Props := mkProps {
  questions : list Question;
  timeLimit : Z
}.

(** The four [useState] cells, the interval of the timer effect, and the
    calls of the [onFinish] prop made so far (oldest first).  [interval]
    is [Some a] while an interval is installed whose callback closed over
    the answers [a], and [None] when there is none or it was cleared. *)
Record State := mkState {
  currentIdx : Z;
  answers : UserAnswers;
  showConfirmModal : bool;
  timeLeft : Z;
  interval : option UserAnswers;
  onFinish_calls : list UserAnswers
}.

Definition setCurrentIdx (i : Z) (s : State) : State :=
  mkState i (answers s) (showConfirmModal s) (timeLeft s) (interval s)
          (onFinish_calls s).

Definition setShowConfirmModal (b : bool) (s : State) : State :=
  mkState (currentIdx s) (answers s) b (timeLeft s) (interval s)
          (onFinish_calls s).

Definition onFinish (a : UserAnswers) (s : State) : State :=
  mkState (currentIdx s) (answers s) (showConfirmModal s) (timeLeft s)
          (interval s) (onFinish_calls s ++ [a]).

(** [answers[k] || []]: an array, even an empty one, is truthy. *)
Definition selected (a : UserAnswers) (k : option Z) : list string :=
  default [] (a !! k).

Section Component.

Variable props : Props.

(** The timer effect, run after the render in which [answers] is [a]:
    no interval unless [timeLimit] is positive. *)
Definition timer_effect (a : UserAnswers) : option UserAnswers :=
  if (timeLimit props <=? 0)%Z then None else Some a.

(** [setAnswers] and the effect that depends on [answers]: the cleanup
    clears the old interval and the effect installs a new one.  (The other
    two dependencies, the props [timeLimit] and [onFinish], are taken to
    stay the same while the component is mounted.) *)
Definition setAnswers (a : UserAnswers) (s : State) : State :=
  mkState (currentIdx s) a (showConfirmModal s) (timeLeft s)
          (timer_effect a) (onFinish_calls s).

(** The state after the first render and its effects. *)
Definition mount : State :=
  {| currentIdx := 0;
     answers := ∅;
     showConfirmModal := false;
     timeLeft := timeLimit props;
     interval := timer_effect ∅;
     onFinish_calls := [] |}.

(** [questions[i]]: [undefined] outside the array. *)
Definition question_at (i : Z) : option Question :=
  if (i <? 0)%Z then None else questions props !! Z.to_nat i.

Definition currentQuestion (s : State) : option Question :=
  question_at (currentIdx s).

Definition isLastQuestion (s : State) : bool :=
  (currentIdx s =? Z.of_nat (length (questions props)) - 1)%Z.

(** [(answers[k]?.length || 0) > 0] *)
Definition answered (a : UserAnswers) (k : option Z) : bool :=
  (0 <? length (selected a k))%nat.

Definition isAllAnswered (s : State) : bool :=
  forallb (fun q => answered (answers s) (id q)) (questions props).

(** [handleOptionToggle]; [None] is the [TypeError] of reading
    [currentQuestion.id] when there is no current question. *)
Definition handleOptionToggle (opt : string) (s : State) : option State :=
  match currentQuestion s with
  | None => None
  | Some q =>
      let currentSelected := selected (answers s) (id q) in
      let newSelected :=
        match question_type q with
        | single_choice => [opt]
        | multiple_choice =>
            if Js.arr_includes currentSelected opt
            then filter (fun item => item ≠ opt) currentSelected
            else currentSelected ++ [opt]
        end in
      Some (setAnswers (<[id q := newSelected]> (answers s)) s)
  end.

Definition handleFinishClick (s : State) : State :=
  setShowConfirmModal true s.

Definition confirmFinish (s : State) : State :=
  onFinish (answers s) s.

(** The callback of [setInterval], which runs only while an interval is
    installed: the updater given to [setTimeLeft]. *)
Definition tick (s : State) : State :=
  match interval s with
  | None => s
  | Some captured =>
      if (timeLeft s <=? 1)%Z then
        mkState (currentIdx s) (answers s) (showConfirmModal s) 0 None
                (onFinish_calls s ++ [captured])
      else
        mkState (currentIdx s) (answers s) (showConfirmModal s)
                (timeLeft s - 1) (interval s) (onFinish_calls s)
  end.

(** The controls of the rendered page that act on the session.  (The back
    button of the header calls the [onExit] prop and leaves the session to
    the parent; it is not part of the model.) *)
Inductive Control :=
| OptionButton (opt : string)
| PreviousButton
| NextButton
| FinishButton
| CancelButton
| ConfirmButton.

(** Whether the page shows the control and lets a click through: without
    a current question the render ends before any control; an option button
    exists per entry of [all_answers]; the previous button is disabled
    at index 0; the last question shows the finish button, disabled
    unless all questions are answered, the others the next button; the
    two buttons of the dialog exist while [showConfirmModal]. *)
Definition clickable (c : Control) (s : State) : bool :=
  match currentQuestion s with
  | None => false
  | Some q =>
      match c with
      | OptionButton opt => Js.arr_includes (all_answers q) opt
      | PreviousButton => negb (currentIdx s =? 0)%Z
      | NextButton => negb (isLastQuestion s)
      | FinishButton => isLastQuestion s && isAllAnswered s
      | CancelButton | ConfirmButton => showConfirmModal s
      end
  end.

(** The [onClick] handler of each control. *)
Definition onClick (c : Control) (s : State) : State :=
  match c with
  | OptionButton opt => default s (handleOptionToggle opt s)
  | PreviousButton => setCurrentIdx (Z.max 0 (currentIdx s - 1)) s
  | NextButton =>
      setCurrentIdx
        (Z.min (Z.of_nat (length (questions props)) - 1) (currentIdx s + 1))
        s
  | FinishButton => handleFinishClick s
  | CancelButton => setShowConfirmModal false s
  | ConfirmButton => confirmFinish s
  end.

Definition click (c : Control) (s : State) : State :=
  if clickable c s then onClick c s else s.

(** The events of the single-threaded event loop. *)
Inductive Event :=
| Tick
| Click (c : Control).

Definition step (s : State) (e : Event) : State :=
  match e with
  | Tick => tick s
  | Click c => click c s
  end.

Definition run (events : list Event) : State :=
  fold_left step events mount.

Definition Reachable (s : State) : Prop :=
  ∃ events, s = run events.

End Component.

(** *** A sample session *)

Definition sample_questions : list Question :=
  [ mkQuestion (Some 1%Z) "Sitz" multiple_choice ["Ja"; "Nein"; "Oft"] ["Ja"]
               (CatString "Koalatest");
    mkQuestion (Some 2%Z) "Platz" single_choice ["Ja"; "Nein"] ["Nein"]
               (CatString "Koalatest");
    mkQuestion (Some 3%Z) "Bleib" multiple_choice ["Ja"; "Nein"] ["Ja"; "Nein"]
               (CatString "Koalatest") ].

Definition sample (limit : Z) : Props := mkProps sample_questions limit.

(** Answer every question, go to the last one, press the finish button. *)
Definition events_to_dialog : list Event :=
  [ Click (OptionButton "Ja"); Click NextButton;
    Click (OptionButton "Ja"); Click NextButton;
    Click (OptionButton "Ja"); Click FinishButton ].

(** The session with a limit of two seconds while its dialog is open. *)
Definition state_dialog : State := run (sample 2) events_to_dialog.

(** A session of one second in which only the first question got an
    answer. *)
Definition state_one_answer : State :=
  run (sample 1) [Click (OptionButton "Nein")].

Definition first_question : Question :=
  mkQuestion (Some 1%Z) "Sitz" multiple_choice ["Ja"; "Nein"; "Oft"] ["Ja"]
             (CatString "Koalatest").

(** The fresh session without time limit after a click on Ja. *)
Definition state_after_toggle : State :=
  setAnswers (sample 0) {[ Some 1%Z := ["Ja"] ]} (mount (sample 0)).

(** The state of the session as the specification names it. *)
Definition phase (s : State) : Phase :=
  match onFinish_calls s with
  | _ :: _ => Finished
  | [] => if showConfirmModal s then ConfirmingFinish else InProgress
  end.

(** *** [formatTime] *)

(** [n.toString()] for an integer [n] (below the size at which JavaScript
    changes to the exponent form): decimal digits, a minus sign when
    negative. *)
Definition number_toString (n : Z) : string :=
  NilZero.string_of_int (Z.to_int n).

(** [s.padStart(2, '0')] *)
Definition padStart2 (s : string) : string :=
  match String.length s with
  | 0 => "00" +:+ s
  | 1 => "0" +:+ s
  | _ => s
  end%nat.

(** [formatTime(seconds)] for a whole number of seconds: [Math.floor]
    rounds down and [%] takes the sign of the dividend. *)
Definition formatTime (seconds : Z) : string :=
  let m := (seconds / 60)%Z in
  let s := Z.rem seconds 60 in
  padStart2 (number_toString m) +:+ ":" +:+ padStart2 (number_toString s).

End QuizGame.

(** ** Facts about the string operations *)

Module JsFacts.
Import Js.

Lemma is_empty_true (s : string) : is_empty s = true ↔ s = "".
Proof. destruct s; simpl; split; congruence. Qed.

Lemma trimEnd_idem (s : string) : trimEnd (trimEnd s) = trimEnd s.
Proof.
  induction s as [|c r IH]; simpl; [reflexivity|].
  destruct (is_whitespace c && is_empty (trimEnd r)) eqn:E; simpl.
  - reflexivity.
  - rewrite IH, E. reflexivity.
Qed.

Lemma trimStart_head (s : string) :
  trimStart s = "" ∨
  ∃ c r, trimStart s = String c r ∧ is_whitespace c = false.
Proof.
  induction s as [|c r IH]; simpl; [now left|].
  destruct (is_whitespace c) eqn:E; [exact IH|].
  right. eauto.
Qed.

Lemma trim_head (s : string) :
  trim s = "" ∨ ∃ c r, trim s = String c r ∧ is_whitespace c = false.
Proof.
  unfold trim.
  destruct (trimStart_head s) as [->|(c & r & -> & Hc)]; [now left|].
  right. simpl. rewrite Hc. simpl. eauto.
Qed.

(** Trimming a trimmed string changes nothing. *)
Lemma trim_idem (s : string) : trim (trim s) = trim s.
Proof.
  destruct (trim_head s) as [E|(c & r & E & Hc)].
  - rewrite E. reflexivity.
  - unfold trim at 1. rewrite E. simpl trimStart. rewrite Hc.
    rewrite <- E. unfold trim. apply trimEnd_idem.
Qed.

(** *** Strings without a quote character *)

Definition quote_free (s : string) : Prop := has_char dquote s = false.

Lemma quote_free_cons (c : ascii) (s : string) :
  quote_free (String c s) ↔ Ascii.eqb c dquote = false ∧ quote_free s.
Proof. unfold quote_free. simpl. apply orb_false_iff. Qed.

Lemma quote_free_snoc (s : string) (c : ascii) :
  quote_free s → Ascii.eqb c dquote = false →
  quote_free (s +:+ String c "").
Proof.
  intros Hs Hc. induction s as [|d r IH]; simpl.
  - apply quote_free_cons. split; [exact Hc|reflexivity].
  - apply quote_free_cons in Hs as [Hd Hr].
    apply quote_free_cons. split; [exact Hd|exact (IH Hr)].
Qed.

Lemma quote_free_trimStart (s : string) :
  quote_free s → quote_free (trimStart s).
Proof.
  induction s as [|c r IH]; simpl; intros H; [exact H|].
  destruct (is_whitespace c); [|exact H].
  apply quote_free_cons in H as [_ H]. exact (IH H).
Qed.

Lemma quote_free_trimEnd (s : string) :
  quote_free s → quote_free (trimEnd s).
Proof.
  induction s as [|c r IH]; simpl; intros H; [exact H|].
  apply quote_free_cons in H as [Hc Hr].
  destruct (is_whitespace c && is_empty (trimEnd r)); [reflexivity|].
  apply quote_free_cons. split; [exact Hc|exact (IH Hr)].
Qed.

Lemma quote_free_trim (s : string) : quote_free s → quote_free (trim s).
Proof.
  intros H. unfold trim.
  apply quote_free_trimEnd, quote_free_trimStart, H.
Qed.

Lemma drop_final_quote_free (s : string) :
  quote_free s → drop_final_quote s = s.
Proof.
  induction s as [|c r IH]; simpl; intros H; [reflexivity|].
  apply quote_free_cons in H as [Hc Hr].
  destruct (is_empty r).
  - rewrite Hc. reflexivity.
  - rewrite (IH Hr). reflexivity.
Qed.

(** On a string without quotes the two [replace] calls find no match. *)
Lemma strip_outer_quotes_free (s : string) :
  quote_free s → strip_outer_quotes s = s.
Proof.
  intros H. destruct s as [|c r]; [reflexivity|].
  unfold strip_outer_quotes.
  pose proof (proj1 (quote_free_cons c r) H) as [Hc _].
  rewrite Hc. apply drop_final_quote_free, H.
Qed.

Lemma unescape_quotes_free (s : string) :
  quote_free s → unescape_quotes s = s.
Proof.
  induction s as [|c r IH]; intros H; [reflexivity|].
  apply quote_free_cons in H as [Hc Hr].
  simpl. destruct r as [|c2 r2]; [reflexivity|].
  rewrite Hc. simpl andb. cbv iota.
  change (String c (unescape_quotes (String c2 r2)) = String c (String c2 r2)).
  rewrite (IH Hr). reflexivity.
Qed.

(** *** [split] *)

Lemma split_not_nil (sep : ascii) (s : string) : split sep s ≠ [].
Proof.
  induction s as [|c r IH]; simpl; [discriminate|].
  destruct (Ascii.eqb c sep); [discriminate|].
  destruct (split sep r); discriminate.
Qed.

Lemma split_no_sep (sep : ascii) (s : string) :
  has_char sep s = false → split sep s = [s].
Proof.
  induction s as [|c r IH]; simpl; intros H; [reflexivity|].
  apply orb_false_iff in H as [Hc Hr].
  rewrite Hc, (IH Hr). reflexivity.
Qed.

(** The pieces left and right of a separator are split independently. *)
Lemma split_app (sep : ascii) (a b : string) :
  split sep (a +:+ String sep b) = split sep a ++ split sep b.
Proof.
  induction a as [|c r IH]; simpl.
  - rewrite Ascii.eqb_refl. reflexivity.
  - destruct (Ascii.eqb c sep).
    + rewrite IH. reflexivity.
    + rewrite IH. pose proof (split_not_nil sep r) as Hne.
      destruct (split sep r); [congruence|reflexivity].
Qed.

End JsFacts.

(** ** The CSV import: properties *)

Module ImportProofs.
Import Js JsFacts AdminDashboard.

(** *** The tokenizer never lets a quote through *)

Lemma scan_quote_free (chars : string) :
  ∀ inQuote buffer matches,
    quote_free buffer → Forall quote_free matches →
    Forall quote_free (scan chars inQuote buffer matches).
Proof.
  induction chars as [|char rest IH]; intros inQuote buffer matches Hb Hm.
  - simpl. apply Forall_app. split; [exact Hm|]. repeat constructor. exact Hb.
  - simpl. destruct (Ascii.eqb char dquote) eqn:Hq.
    + apply IH; assumption.
    + destruct (Ascii.eqb char comma && negb inQuote).
      * apply IH; [reflexivity|].
        apply Forall_app. split; [exact Hm|]. repeat constructor. exact Hb.
      * apply IH; [|exact Hm]. apply quote_free_snoc; assumption.
Qed.

Lemma clean_quote_free (m : string) : quote_free m → clean m = trim m.
Proof.
  intros H. unfold clean.
  rewrite strip_outer_quotes_free by (apply quote_free_trim, H).
  rewrite unescape_quotes_free by (apply quote_free_trim, H).
  apply trim_idem.
Qed.

(** Both [replace] calls of [parseCSV] are without effect: a field is the
    trimmed buffer of the scanner. *)
Lemma tokenize_trim (currentLine : string) :
  tokenize currentLine = map trim (scan currentLine false "" []).
Proof.
  unfold tokenize. apply map_ext_in. intros m Hm.
  apply clean_quote_free.
  assert (Hall : Forall quote_free (scan currentLine false "" []))
    by (apply scan_quote_free; [reflexivity|constructor]).
  rewrite Forall_forall in Hall. apply Hall, list_elem_of_In, Hm.
Qed.

Lemma tokenize_quote_free (currentLine : string) :
  Forall quote_free (tokenize currentLine).
Proof.
  rewrite tokenize_trim. apply Forall_map.
  eapply Forall_impl; [apply scan_quote_free; [reflexivity|constructor]|].
  intros m Hm. apply quote_free_trim, Hm.
Qed.

Lemma nth_quote_free (values : list string) (i : nat) :
  Forall quote_free values → quote_free (nth i values "").
Proof.
  intros H. revert i. induction H as [|v vs Hv _ IH]; intros [|i]; simpl;
    try reflexivity; [exact Hv|apply IH].
Qed.

Definition row_quote_free (row : CsvRow) : Prop :=
  quote_free (question row) ∧ quote_free (row_question_type row) ∧
  quote_free (answers_field row) ∧ quote_free (correct_answers_field row) ∧
  quote_free (row_category row).

(** *** The outer loop as a concatenation of per-line results *)

Lemma parseCSV_line_app (result : list CsvRow) (line : string) :
  parseCSV_line result line = result ++ parseCSV_line [] line.
Proof.
  unfold parseCSV_line.
  destruct (is_empty (trim line)); [now rewrite app_nil_r|].
  destruct (5 <=? length (tokenize (trim line)))%nat;
    [reflexivity|now rewrite app_nil_r].
Qed.

Lemma fold_parseCSV_line (lines : list string) :
  ∀ result,
    fold_left parseCSV_line lines result
    = result ++ flat_map (parseCSV_line []) lines.
Proof.
  induction lines as [|line lines IH]; intros result; simpl.
  - now rewrite app_nil_r.
  - rewrite IH, (parseCSV_line_app result line), <- app_assoc. reflexivity.
Qed.

Lemma parseCSV_lines_flat_map (lines : list string) :
  parseCSV_lines lines = flat_map (parseCSV_line []) (drop 1 lines).
Proof. unfold parseCSV_lines. now rewrite fold_parseCSV_line. Qed.

Lemma parseCSV_line_quote_free (line : string) :
  Forall row_quote_free (parseCSV_line [] line).
Proof.
  unfold parseCSV_line.
  destruct (is_empty (trim line)); [constructor|].
  destruct (5 <=? length (tokenize (trim line)))%nat; [|constructor].
  pose proof (tokenize_quote_free (trim line)) as H.
  repeat constructor; simpl; apply nth_quote_free, H.
Qed.

Lemma parseCSV_quote_free (text : string) :
  Forall row_quote_free (parseCSV text).
Proof.
  unfold parseCSV. rewrite parseCSV_lines_flat_map.
  induction (drop 1 (split newline text)) as [|line lines IH]; simpl.
  - constructor.
  - apply Forall_app. split; [apply parseCSV_line_quote_free|exact IH].
Qed.

(** *** The row conversion *)

Definition valid_type (row : CsvRow) : bool :=
  let qType := normalize_type (row_question_type row) in
  String.eqb qType "single_choice" || String.eqb qType "multiple_choice".

Lemma convert_row_invalid (row : CsvRow) (n : nat) :
  valid_type row = false → convert_row row n = (None, S n).
Proof.
  unfold valid_type, convert_row. cbv zeta. intros H.
  apply orb_false_iff in H as [-> ->]. reflexivity.
Qed.

Lemma convert_row_valid (row : CsvRow) (n : nat) :
  valid_type row = true →
  ∃ q, convert_row row n = (Some q, n) ∧
       id q = None ∧
       question_text q = question row ∧
       all_answers q = split_list (answers_field row) ∧
       correct_answers q = split_list (correct_answers_field row).
Proof.
  unfold valid_type, convert_row. cbv zeta. intros H.
  rewrite <- negb_orb, H. simpl negb. cbv iota.
  eexists. split; [reflexivity|]. simpl. repeat split.
Qed.

Lemma map_rows_cons (row : CsvRow) (rows : list CsvRow) (n : nat) :
  map_rows (row :: rows) n
  = (fst (convert_row row n) :: fst (map_rows rows (snd (convert_row row n))),
     snd (map_rows rows (snd (convert_row row n)))).
Proof.
  simpl. destruct (convert_row row n) as [q k]. simpl.
  destruct (map_rows rows k). reflexivity.
Qed.

(** [skippedCount] counts the parsed rows whose type is invalid. *)
Lemma map_rows_skipped (rows : list CsvRow) :
  ∀ n, snd (map_rows rows n)
       = (n + length (filter (λ row, valid_type row = false) rows))%nat.
Proof.
  induction rows as [|row rows IH]; intros n; [simpl; lia|].
  rewrite map_rows_cons. cbn [snd]. rewrite IH.
  destruct (valid_type row) eqn:Hv.
  - destruct (convert_row_valid row n Hv) as (q & -> & _). cbn [snd].
    rewrite filter_cons_False by congruence. reflexivity.
  - rewrite (convert_row_invalid row n Hv). cbn [snd].
    rewrite filter_cons_True by exact Hv. simpl. lia.
Qed.

Lemma keep_all_cons_Some (q : Question) (qs : list (option Question)) :
  keep_all (Some q :: qs)
  = if keep (Some q) then q :: keep_all qs else keep_all qs.
Proof.
  unfold keep_all.
  change (omap ?f (?x :: ?l))
    with (match f x with Some y => y :: omap f l | None => omap f l end).
  cbv beta. destruct (keep (Some q)); reflexivity.
Qed.

Lemma keep_all_cons_None (qs : list (option Question)) :
  keep_all (None :: qs) = keep_all qs.
Proof. reflexivity. Qed.

(** Every kept question comes from a parsed row of valid type and passed
    the keep test. *)
Lemma keep_all_map_rows (rows : list CsvRow) :
  ∀ n q,
    q ∈ keep_all (fst (map_rows rows n)) →
    ∃ row, row ∈ rows ∧ valid_type row = true ∧ keep (Some q) = true ∧
           id q = None ∧
           question_text q = question row ∧
           all_answers q = split_list (answers_field row) ∧
           correct_answers q = split_list (correct_answers_field row).
Proof.
  induction rows as [|row rows IH]; intros n q.
  - intros H. inversion H.
  - rewrite map_rows_cons. cbn [fst].
    assert (Hrest : q ∈ keep_all (fst (map_rows rows (snd (convert_row row n)))) →
                    ∃ r, r ∈ row :: rows ∧ valid_type r = true ∧
                         keep (Some q) = true ∧ id q = None ∧
                         question_text q = question r ∧
                         all_answers q = split_list (answers_field r) ∧
                         correct_answers q
                         = split_list (correct_answers_field r)).
    { intros Hin. destruct (IH _ _ Hin) as (r & Hr & Hall).
      exists r. split; [right; exact Hr|exact Hall]. }
    destruct (valid_type row) eqn:Hv.
    + destruct (convert_row_valid row n Hv) as (q0 & E & Hq0).
      rewrite E in *. cbn [fst snd] in *. rewrite keep_all_cons_Some.
      destruct (keep (Some q0)) eqn:Hk; [|exact Hrest].
      intros [->|Hin]%elem_of_cons; [|exact (Hrest Hin)].
      exists row. split; [left|]. tauto.
    + rewrite (convert_row_invalid row n Hv) in *. cbn [fst snd] in *.
      rewrite keep_all_cons_None. exact Hrest.
Qed.

Lemma accepted_from_row (text : string) (q : Question) :
  q ∈ accepted text →
  ∃ row, row ∈ parseCSV text ∧ valid_type row = true ∧
         keep (Some q) = true ∧ id q = None ∧
         question_text q = question row ∧
         all_answers q = split_list (answers_field row) ∧
         correct_answers q = split_list (correct_answers_field row).
Proof.
  unfold accepted, process. intros H.
  apply (keep_all_map_rows (parseCSV text) 0 q).
  destruct (map_rows (parseCSV text) 0) as [mapped k]. exact H.
Qed.

Lemma skipped_count (text : string) :
  skipped text
  = length (filter (λ row, valid_type row = false) (parseCSV text)).
Proof.
  unfold skipped, process.
  pose proof (map_rows_skipped (parseCSV text) 0) as H.
  destruct (map_rows (parseCSV text) 0) as [mapped k]. exact H.
Qed.

Lemma split_list_tokens (s t : string) :
  t ∈ split_list s → t ≠ "" ∧ trim t = t.
Proof.
  unfold split_list. intros [Ht Hin]%list_elem_of_filter.
  split.
  - intros ->. exact Ht.
  - apply list_elem_of_fmap in Hin as (u & -> & _). apply trim_idem.
Qed.

Lemma keep_true (q : Question) :
  keep (Some q) = true → question_text q ≠ "" ∧ all_answers q ≠ [].
Proof.
  simpl. intros [Ht Hl]%andb_true_iff. split.
  - intros E. rewrite E in Ht. discriminate.
  - intros E. rewrite E in Hl. discriminate.
Qed.

Lemma accepted_wrong_correct :
  accepted file_wrong_correct = [question_wrong_correct].
Proof. vm_compute. reflexivity. Qed.

(** *** The claims about the import *)

(** C1, as stated, fails: the file [file_wrong_correct] is accepted with a
    single-choice question that has two correct answers, neither of which
    is one of its answers. *)
Lemma accepted_correct_answers_unchecked :
  accepted file_wrong_correct = [question_wrong_correct] ∧
  question_type question_wrong_correct = single_choice ∧
  ¬ (correct_answers question_wrong_correct
     ⊆ all_answers question_wrong_correct) ∧
  ¬ (length (correct_answers question_wrong_correct) ≤ 1)%nat.
Proof.
  split; [exact accepted_wrong_correct|]. split; [reflexivity|]. split.
  - intros Hsub. specialize (Hsub "Steh"). simpl in Hsub.
    assert (Hin : "Steh" ∈ ["Sitz"; "Platz"]) by (apply Hsub; left).
    repeat (apply elem_of_cons in Hin as [Hin|Hin]; [discriminate|]).
    inversion Hin.
  - simpl. lia.
Qed.

(** C1, amended: every accepted question has no id, a non-empty
    [question_text] and a non-empty [all_answers]; [all_answers] and
    [correct_answers] are the non-empty trimmed pieces of the third and
    the fourth field of one parsed row of valid type.  The import never
    compares [correct_answers] with [all_answers] nor counts them. *)
Theorem accepted_question_shape (text : string) (q : Question) :
  q ∈ accepted text →
  id q = None ∧ question_text q ≠ "" ∧ all_answers q ≠ [] ∧
  (∀ t, t ∈ all_answers q → t ≠ "" ∧ trim t = t) ∧
  (∀ t, t ∈ correct_answers q → t ≠ "" ∧ trim t = t) ∧
  ∃ row, row ∈ parseCSV text ∧ valid_type row = true ∧
         question_text q = question row ∧
         all_answers q = split_list (answers_field row) ∧
         correct_answers q = split_list (correct_answers_field row).
Proof.
  intros (row & Hrow & Hv & Hk & Hid & Ht & Ha & Hc)%accepted_from_row.
  destruct (keep_true q Hk) as [Htext Hans].
  split; [exact Hid|]. split; [exact Htext|]. split; [exact Hans|].
  split; [|split].
  - intros t. rewrite Ha. apply split_list_tokens.
  - intros t. rewrite Hc. apply split_list_tokens.
  - exists row. tauto.
Qed.

(** The shape of the question accepted from [file_wrong_correct]. *)
Lemma accepted_question_shape_witness :
  question_wrong_correct ∈ accepted file_wrong_correct ∧
  id question_wrong_correct = None ∧
  question_text question_wrong_correct ≠ "" ∧
  all_answers question_wrong_correct ≠ [] ∧
  (∀ t, t ∈ all_answers question_wrong_correct → t ≠ "" ∧ trim t = t) ∧
  (∀ t, t ∈ correct_answers question_wrong_correct → t ≠ "" ∧ trim t = t) ∧
  ∃ row, row ∈ parseCSV file_wrong_correct ∧ valid_type row = true ∧
         question_text question_wrong_correct = question row ∧
         all_answers question_wrong_correct
         = split_list (answers_field row) ∧
         correct_answers question_wrong_correct
         = split_list (correct_answers_field row).
Proof.
  assert (Hin : question_wrong_correct ∈ accepted file_wrong_correct)
    by (rewrite accepted_wrong_correct; left).
  split; [exact Hin|].
  exact (accepted_question_shape file_wrong_correct question_wrong_correct Hin).
Defined.

(** C5: the code does not do what the claim says.  The quoted field of
    [file_doubled_quotes] holds the word hi between doubled quotes; the
    parsed [question] is [She said hi.], without any quote.  This is so
    for every file: no field of a parsed row ever holds a quote, because
    the scanner consumes every quote before the two [replace] calls run. *)
Theorem doubled_quotes_are_dropped :
  parseCSV file_doubled_quotes
  = [ {| question := "She said hi.";
         row_question_type := "single choice";
         answers_field := "Ja;Nein";
         correct_answers_field := "Ja";
         row_category := "Koalatest" |} ] ∧
  includes (String dquote (String dquote "hi")) field_doubled_quotes = true ∧
  ∀ text, Forall row_quote_free (parseCSV text).
Proof.
  split; [vm_compute; reflexivity|]. split; [vm_compute; reflexivity|].
  exact parseCSV_quote_free.
Qed.

(** C6: the code does not do what the claim says.  The import accepts the
    question of [file_one_answer], whose [all_answers] has length 1; the
    same question is refused by the check of [handleSave], which asks for
    at least 2 answers. *)
Theorem accepted_with_one_answer :
  ingest file_one_answer = Imported [question_one_answer] 0 ∧
  accepted file_one_answer = [question_one_answer] ∧
  length (all_answers question_one_answer) = 1%nat ∧
  handleSave_passes question_one_answer = false.
Proof. repeat split; vm_compute; reflexivity. Qed.

(** C7: [ingest] raises its error exactly when no question was accepted;
    the message is then the one for skipped rows when [skippedCount] is
    positive and the one for no usable rows otherwise, and the two
    messages differ.  Otherwise the accepted questions and the counter are
    handed on; no other outcome exists, so nothing a single row does can
    surface as an error.  Seen from [onload], which does not process an
    empty text at all, the error is raised exactly for a non-empty text
    without accepted question. *)
Theorem ingest_fails_iff_none_accepted (text : string) :
  ingest text
  = match accepted text with
    | [] => ImportError (if (0 <? skipped text)%nat then msg_all_skipped
                         else msg_none_valid)
    | _ :: _ => Imported (accepted text) (skipped text)
    end ∧
  ((∃ message, ingest text = ImportError message) ↔ accepted text = []) ∧
  msg_all_skipped ≠ msg_none_valid ∧
  ((∃ message, onload text = Some (ImportError message))
   ↔ text ≠ "" ∧ accepted text = []).
Proof.
  assert (E : ingest text
              = match accepted text with
                | [] => ImportError (if (0 <? skipped text)%nat
                                     then msg_all_skipped else msg_none_valid)
                | _ :: _ => Imported (accepted text) (skipped text)
                end).
  { unfold ingest, accepted, skipped.
    destruct (process text) as [[|q qs] n]; reflexivity. }
  assert (F : (∃ message, ingest text = ImportError message)
              ↔ accepted text = []).
  { rewrite E. destruct (accepted text); split.
    - reflexivity.
    - eauto.
    - intros [message H]. discriminate.
    - discriminate. }
  split; [exact E|]. split; [exact F|]. split; [discriminate|].
  unfold onload. destruct text as [|c r]; simpl.
  - split; [intros [message H]; discriminate|intros [H _]; congruence].
  - rewrite <- F. split.
    + intros [message [= H]]. split; [discriminate|eauto].
    + intros [_ [message H]]. exists message. now rewrite H.
Qed.

(** The two failures and a success with a skipped row all occur. *)
Example ingest_essay :
  ingest file_essay = ImportError msg_all_skipped ∧ skipped file_essay = 1%nat.
Proof. split; vm_compute; reflexivity. Qed.

Example ingest_header_only : ingest header = ImportError msg_none_valid.
Proof. vm_compute. reflexivity. Qed.

Example ingest_mixed :
  ∃ q, ingest (lines_of [header; "Sit,essay,Sitz;Platz,Sitz,Koalatest";
                         "Sit,Single Choice,Sitz;Platz;Steh,Sitz,Koalatest"])
       = Imported [q] 1 ∧ question_type q = single_choice.
Proof. eexists. split; vm_compute; reflexivity. Qed.

(** *** Lines with fewer than five fields *)

Lemma parseCSV_line_short (result : list CsvRow) (line : string) :
  (length (tokenize (trim line)) < 5)%nat →
  parseCSV_line result line = result.
Proof.
  intros H. unfold parseCSV_line.
  destruct (is_empty (trim line)); [reflexivity|].
  apply Nat.leb_gt in H. rewrite H. reflexivity.
Qed.

Lemma parseCSV_lines_drop_short (before after : list string) (line : string) :
  before ≠ [] →
  (length (tokenize (trim line)) < 5)%nat →
  parseCSV_lines (before ++ line :: after) = parseCSV_lines (before ++ after).
Proof.
  intros Hne Hshort. destruct before as [|h before]; [congruence|].
  unfold parseCSV_lines. simpl. rewrite !drop_0.
  rewrite !fold_left_app. simpl.
  rewrite parseCSV_line_short by exact Hshort. reflexivity.
Qed.

(** C8: a line that tokenizes to fewer than five fields leaves the loop's
    result as it was, so a file with such a line after its first line
    parses to the same rows as the file without the line, and the import
    has the same outcome: the same accepted questions and the same
    [skippedCount].  The same holds when the line is the last one of the
    file. *)
Theorem short_line_dropped_silently (before line after : string) :
  has_char newline line = false →
  (length (tokenize (trim line)) < 5)%nat →
  (∀ result, parseCSV_line result line = result) ∧
  parseCSV (before +:+ String newline line) = parseCSV before ∧
  ingest (before +:+ String newline line) = ingest before ∧
  parseCSV (before +:+ String newline (line +:+ String newline after))
  = parseCSV (before +:+ String newline after) ∧
  skipped (before +:+ String newline (line +:+ String newline after))
  = skipped (before +:+ String newline after) ∧
  accepted (before +:+ String newline (line +:+ String newline after))
  = accepted (before +:+ String newline after) ∧
  ingest (before +:+ String newline (line +:+ String newline after))
  = ingest (before +:+ String newline after).
Proof.
  intros Hnl Hshort.
  assert (E : parseCSV (before +:+ String newline (line +:+ String newline after))
              = parseCSV (before +:+ String newline after)).
  { unfold parseCSV. rewrite !split_app, (split_no_sep _ _ Hnl).
    simpl app. apply parseCSV_lines_drop_short; [apply split_not_nil|exact Hshort]. }
  assert (L : parseCSV (before +:+ String newline line) = parseCSV before).
  { unfold parseCSV. rewrite split_app, (split_no_sep _ _ Hnl).
    rewrite <- (app_nil_r (split newline before)) at 2.
    apply parseCSV_lines_drop_short; [apply split_not_nil|exact Hshort]. }
  split; [intros result; apply parseCSV_line_short, Hshort|].
  split; [exact L|].
  unfold skipped, accepted, ingest, process. rewrite E, L. repeat split.
Qed.

(** A line of three fields after the header, before a row of type essay. *)
Lemma short_line_dropped_silently_witness :
  has_char newline "Platz,multiple choice,Ja" = false ∧
  (length (tokenize (trim "Platz,multiple choice,Ja")) < 5)%nat ∧
  (∀ result, parseCSV_line result "Platz,multiple choice,Ja" = result) ∧
  parseCSV (header +:+ String newline "Platz,multiple choice,Ja")
  = parseCSV header ∧
  ingest (header +:+ String newline "Platz,multiple choice,Ja")
  = ingest header ∧
  parseCSV (header +:+ String newline
              ("Platz,multiple choice,Ja" +:+ String newline "Sit,essay,A,A,B"))
  = parseCSV (header +:+ String newline "Sit,essay,A,A,B") ∧
  skipped (header +:+ String newline
             ("Platz,multiple choice,Ja" +:+ String newline "Sit,essay,A,A,B"))
  = skipped (header +:+ String newline "Sit,essay,A,A,B") ∧
  accepted (header +:+ String newline
              ("Platz,multiple choice,Ja" +:+ String newline "Sit,essay,A,A,B"))
  = accepted (header +:+ String newline "Sit,essay,A,A,B") ∧
  ingest (header +:+ String newline
            ("Platz,multiple choice,Ja" +:+ String newline "Sit,essay,A,A,B"))
  = ingest (header +:+ String newline "Sit,essay,A,A,B").
Proof.
  assert (H1 : has_char newline "Platz,multiple choice,Ja" = false)
    by reflexivity.
  assert (H2 : (length (tokenize (trim "Platz,multiple choice,Ja")) < 5)%nat)
    by (vm_compute; lia).
  split; [exact H1|]. split; [exact H2|].
  exact (short_line_dropped_silently header "Platz,multiple choice,Ja"
           "Sit,essay,A,A,B" H1 H2).
Defined.

Example short_line_file :
  length (parseCSV file_short_line) = 2%nat ∧
  skipped file_short_line = 0%nat ∧
  length (accepted file_short_line) = 2%nat.
Proof. repeat split; vm_compute; reflexivity. Qed.

End ImportProofs.

(** ** The quiz session: properties *)

Module QuizProofs.
Import QuizGame.

(** *** Arrays of selected options *)

Lemma arr_includes_true (arr : list string) (x : string) :
  Js.arr_includes arr x = true ↔ x ∈ arr.
Proof.
  unfold Js.arr_includes. rewrite existsb_exists. split.
  - intros (y & Hy & E). apply String.eqb_eq in E. subst y.
    apply list_elem_of_In, Hy.
  - intros H. exists x. split; [apply list_elem_of_In, H|apply String.eqb_refl].
Qed.

Lemma arr_includes_false (arr : list string) (x : string) :
  Js.arr_includes arr x = false ↔ x ∉ arr.
Proof.
  rewrite <- arr_includes_true. destruct (Js.arr_includes arr x); split;
    congruence.
Qed.

Lemma filter_out_absent (l : list string) (x : string) :
  x ∉ l → filter (λ item, item ≠ x) l = l.
Proof.
  induction l as [|y l IH]; intros H; [reflexivity|].
  apply not_elem_of_cons in H as [Hxy Hl].
  rewrite filter_cons_True by congruence. now rewrite IH.
Qed.

Lemma filter_out_appended (l : list string) (x : string) :
  x ∉ l → filter (λ item, item ≠ x) (l ++ [x]) = l.
Proof.
  intros H. rewrite filter_app, filter_out_absent by exact H.
  rewrite filter_cons_False by (intros E; now apply E).
  rewrite filter_nil. apply app_nil_r.
Qed.

(** [toggle] is the new selection of [handleOptionToggle] on a
    multiple-choice question. *)
Definition toggle (opt : string) (currentSelected : list string)
  : list string :=
  if Js.arr_includes currentSelected opt
  then filter (λ item, item ≠ opt) currentSelected
  else currentSelected ++ [opt].

Lemma toggle_toggle_members (opt : string) (l : list string) (x : string) :
  x ∈ toggle opt (toggle opt l) ↔ x ∈ l.
Proof.
  unfold toggle at 2. destruct (Js.arr_includes l opt) eqn:E.
  - apply arr_includes_true in E.
    assert (Hout : opt ∉ filter (λ item, item ≠ opt) l).
    { rewrite list_elem_of_filter. intros [Hne _]. now apply Hne. }
    unfold toggle. apply arr_includes_false in Hout. rewrite Hout.
    rewrite elem_of_app, list_elem_of_filter, list_elem_of_singleton.
    split.
    + intros [[_ H] | ->]; assumption.
    + intros H. destruct (decide (x = opt)) as [->|Hne]; [now right|now left].
  - apply arr_includes_false in E.
    assert (Hin : opt ∈ l ++ [opt])
      by (apply elem_of_app; right; apply list_elem_of_singleton; reflexivity).
    unfold toggle. apply arr_includes_true in Hin. rewrite Hin.
    now rewrite filter_out_appended.
Qed.

Lemma toggle_toggle_absent (opt : string) (l : list string) :
  opt ∉ l → toggle opt (toggle opt l) = l.
Proof.
  intros H. unfold toggle at 2.
  rewrite (proj2 (arr_includes_false l opt) H).
  assert (Hin : opt ∈ l ++ [opt])
    by (apply elem_of_app; right; apply list_elem_of_singleton; reflexivity).
  unfold toggle. rewrite (proj2 (arr_includes_true _ _) Hin).
  apply filter_out_appended, H.
Qed.

(** *** [handleOptionToggle] *)

Section Handlers.

Variable props : Props.

Lemma handleOptionToggle_multiple (opt : string) (s : State) (q : Question) :
  currentQuestion props s = Some q →
  question_type q = multiple_choice →
  handleOptionToggle props opt s
  = Some (setAnswers props
            (<[id q := toggle opt (selected (answers s) (id q))]> (answers s))
            s).
Proof.
  intros Hq Ht. unfold handleOptionToggle. rewrite Hq, Ht. reflexivity.
Qed.

Lemma currentQuestion_setAnswers (a : UserAnswers) (s : State) :
  currentQuestion props (setAnswers props a s) = currentQuestion props s.
Proof. reflexivity. Qed.

Lemma selected_insert_eq (a : UserAnswers) (k : option Z) (l : list string) :
  selected (<[k := l]> a) k = l.
Proof. unfold selected. now rewrite lookup_insert_eq. Qed.

Lemma selected_insert_ne (a : UserAnswers) (k k' : option Z)
      (l : list string) :
  k ≠ k' → selected (<[k := l]> a) k' = selected a k'.
Proof. intros H. unfold selected. now rewrite lookup_insert_ne. Qed.

(** *** The timer keeps the current answers *)

(** An installed interval closed over the answers of the current
    render, and until [onFinish] was called the interval is the one
    the effect installs. *)
Definition timer_current (s : State) : Prop :=
  (interval s = None ∨ interval s = Some (answers s)) ∧
  (onFinish_calls s = [] → interval s = timer_effect props (answers s)).

Lemma timer_effect_cases (a : UserAnswers) :
  timer_effect props a = None ∨ timer_effect props a = Some a.
Proof. unfold timer_effect. destruct (timeLimit props <=? 0)%Z; auto. Qed.

Lemma timer_current_mount : timer_current (mount props).
Proof. split; [apply timer_effect_cases|reflexivity]. Qed.

Lemma timer_current_setAnswers (a : UserAnswers) (s : State) :
  timer_current (setAnswers props a s).
Proof. split; [apply timer_effect_cases|reflexivity]. Qed.

Lemma timer_current_tick (s : State) :
  timer_current s → timer_current (tick s).
Proof.
  intros H. unfold tick.
  destruct (interval s) as [captured|] eqn:Hi; [|exact H].
  destruct H as [H1 H2]. destruct (timeLeft s <=? 1)%Z.
  - split; [now left|]. simpl. intros E.
    destruct (onFinish_calls s); discriminate.
  - split; simpl; rewrite <- Hi; [exact H1|exact H2].
Qed.

Lemma timer_current_click (c : Control) (s : State) :
  timer_current s → timer_current (click props c s).
Proof.
  intros H. unfold click. destruct (clickable props c s); [|exact H].
  destruct c; simpl; try exact H.
  - unfold handleOptionToggle.
    destruct (currentQuestion props s); [|exact H].
    apply timer_current_setAnswers.
  - destruct H as [H1 H2]. split; [exact H1|].
    simpl. intros E. destruct (onFinish_calls s); discriminate.
Qed.

Lemma timer_current_step (s : State) (e : Event) :
  timer_current s → timer_current (step props s e).
Proof.
  destruct e; [apply timer_current_tick|apply timer_current_click].
Qed.

Lemma timer_current_fold (events : list Event) :
  ∀ s, timer_current s → timer_current (fold_left (step props) events s).
Proof.
  induction events as [|e events IH]; intros s H; [exact H|].
  simpl. apply IH, timer_current_step, H.
Qed.

Lemma timer_current_reachable (s : State) :
  Reachable props s → timer_current s.
Proof.
  intros [events ->]. apply timer_current_fold, timer_current_mount.
Qed.

(** While the session has not finished, a positive limit means that the
    interval is installed and holds the current answers. *)
Lemma interval_installed (s : State) :
  Reachable props s → (0 < timeLimit props)%Z → onFinish_calls s = [] →
  interval s = Some (answers s).
Proof.
  intros Hr Hl Hc. destruct (timer_current_reachable s Hr) as [_ H].
  rewrite (H Hc). unfold timer_effect.
  destruct (Z.leb_spec (timeLimit props) 0); [lia|reflexivity].
Qed.

Lemma phase_not_finished (s : State) :
  phase s ≠ Finished → onFinish_calls s = [].
Proof. unfold phase. destruct (onFinish_calls s); congruence. Qed.

Lemma run_snoc (events : list Event) (e : Event) :
  run props (events ++ [e]) = step props (run props events) e.
Proof. unfold run. now rewrite fold_left_app. Qed.

Lemma Reachable_step (s : State) (e : Event) :
  Reachable props s → Reachable props (step props s e).
Proof.
  intros [events ->]. exists (events ++ [e]). now rewrite run_snoc.
Qed.

Lemma isLastQuestion_false (s : State) :
  currentIdx s ≠ (Z.of_nat (length (questions props)) - 1)%Z →
  isLastQuestion props s = false.
Proof. intros H. unfold isLastQuestion. now apply Z.eqb_neq. Qed.

Lemma isAllAnswered_false (s : State) (q : Question) :
  q ∈ questions props → selected (answers s) (id q) = [] →
  isAllAnswered props s = false.
Proof.
  intros Hq He. unfold isAllAnswered.
  destruct (forallb _ (questions props)) eqn:E; [|reflexivity].
  rewrite forallb_forall in E.
  specialize (E q (proj1 (list_elem_of_In _ _) Hq)).
  unfold answered in E. rewrite He in E. discriminate.
Qed.

Lemma tick_expires (s : State) :
  Reachable props s → (0 < timeLimit props)%Z →
  onFinish_calls s = [] → (timeLeft s ≤ 1)%Z →
  tick s = mkState (currentIdx s) (answers s) (showConfirmModal s) 0 None
                   [answers s].
Proof.
  intros Hr Hl Hc Ht. unfold tick.
  rewrite (interval_installed s Hr Hl Hc), Hc.
  destruct (Z.leb_spec (timeLeft s) 1); [reflexivity|lia].
Qed.

Lemma tick_no_interval (s : State) : interval s = None → tick s = s.
Proof. intros H. unfold tick. now rewrite H. Qed.

(** Until the last second each tick of an unfinished session takes one
    second off and changes nothing else. *)
Lemma tick_counts_down (s : State) :
  Reachable props s → (0 < timeLimit props)%Z →
  onFinish_calls s = [] → (1 < timeLeft s)%Z →
  tick s = mkState (currentIdx s) (answers s) (showConfirmModal s)
                   (timeLeft s - 1) (interval s) (onFinish_calls s).
Proof.
  intros Hr Hl Hc Ht. unfold tick.
  rewrite (interval_installed s Hr Hl Hc).
  destruct (Z.leb_spec (timeLeft s) 1); [lia|reflexivity].
Qed.

(** The countdown does run out: [n + 1] ticks from [timeLeft = n + 1]
    end the session with the answers it has. *)
Lemma countdown_runs_out (n : nat) :
  ∀ s, Reachable props s → (0 < timeLimit props)%Z →
       phase s = InProgress → timeLeft s = Z.of_nat (S n) →
       phase (Nat.iter (S n) tick s) = Finished ∧
       onFinish_calls (Nat.iter (S n) tick s) = [answers s].
Proof.
  induction n as [|n IH]; intros s Hr Hl Hp Ht.
  - assert (Hc : onFinish_calls s = [])
      by (apply phase_not_finished; rewrite Hp; discriminate).
    simpl Nat.iter. rewrite (tick_expires s Hr Hl Hc) by lia.
    split; reflexivity.
  - rewrite Nat.iter_succ_r.
    assert (Hc : onFinish_calls s = [])
      by (apply phase_not_finished; rewrite Hp; discriminate).
    assert (E := tick_counts_down s Hr Hl Hc ltac:(lia)).
    destruct (IH (tick s)) as [H1 H2].
    + exact (Reachable_step s Tick Hr).
    + exact Hl.
    + rewrite E. exact Hp.
    + rewrite E. simpl. lia.
    + split; [exact H1|]. rewrite H2, E. reflexivity.
Qed.

(** *** The claims about the session *)

(** C4: in a reachable session with a positive time limit that is still
    in progress, the tick that finds [timeLeft] at 1 (or below) sets it
    to 0, clears the interval and calls [onFinish] once, with the
    answers of the session as they are; the dialog was never opened and
    nothing asks whether all questions are answered. *)
Theorem timeout_finishes_with_current_answers (s : State) :
  Reachable props s → (0 < timeLimit props)%Z →
  phase s = InProgress → (timeLeft s ≤ 1)%Z →
  phase (tick s) = Finished ∧
  onFinish_calls (tick s) = [answers s] ∧
  showConfirmModal (tick s) = false ∧
  timeLeft (tick s) = 0%Z ∧
  answers (tick s) = answers s ∧
  interval (tick s) = None.
Proof.
  intros Hr Hl Hp Ht.
  assert (Hc : onFinish_calls s = [])
    by (apply phase_not_finished; rewrite Hp; discriminate).
  assert (Hm : showConfirmModal s = false).
  { unfold phase in Hp. rewrite Hc in Hp.
    destruct (showConfirmModal s); [discriminate|reflexivity]. }
  rewrite (tick_expires s Hr Hl Hc Ht). unfold phase. simpl.
  repeat split. exact Hm.
Qed.

(** C2, amended: the countdown takes no notice of the dialog.  In a
    reachable session with a positive limit whose dialog is open, a
    tick with more than one second left takes one second off and keeps
    the dialog open; a tick with one second left (or less) sets
    [timeLeft] to 0 and calls [onFinish] with the current answers while
    the dialog is still open.  That expiry clears the interval, so the
    tick after it neither counts nor calls [onFinish] again. *)
Theorem countdown_ignores_dialog (s : State) :
  Reachable props s → (0 < timeLimit props)%Z →
  phase s = ConfirmingFinish →
  ((1 < timeLeft s)%Z →
   timeLeft (tick s) = (timeLeft s - 1)%Z ∧
   phase (tick s) = ConfirmingFinish) ∧
  ((timeLeft s ≤ 1)%Z →
   timeLeft (tick s) = 0%Z ∧
   onFinish_calls (tick s) = [answers s] ∧
   showConfirmModal (tick s) = true ∧
   tick (tick s) = tick s).
Proof.
  intros Hr Hl Hp.
  assert (Hc : onFinish_calls s = [])
    by (apply phase_not_finished; rewrite Hp; discriminate).
  assert (Hm : showConfirmModal s = true).
  { unfold phase in Hp. rewrite Hc in Hp.
    destruct (showConfirmModal s); [reflexivity|discriminate]. }
  split; intros Ht.
  - rewrite (tick_counts_down s Hr Hl Hc Ht). simpl. split; [reflexivity|].
    unfold phase. simpl. rewrite Hc, Hm. reflexivity.
  - rewrite (tick_expires s Hr Hl Hc Ht). simpl.
    split; [reflexivity|]. split; [reflexivity|]. split; [exact Hm|].
    now apply tick_no_interval.
Qed.

(** C3: a request to finish before the last question, or while some
    question has no selected option, leaves the session in progress.
    [handleFinishClick] is reached through the finish button only, which
    is not rendered before the last question and is disabled while a
    question is unanswered; a click on it in such a state changes
    nothing.  More than that, in such a state no event at all, tick or
    click, opens the dialog. *)
Theorem finish_button_guarded (s : State) :
  phase s = InProgress →
  (currentIdx s ≠ (Z.of_nat (length (questions props)) - 1)%Z ∨
   ∃ q, q ∈ questions props ∧ selected (answers s) (id q) = []) →
  clickable props FinishButton s = false ∧
  click props FinishButton s = s ∧
  phase (click props FinishButton s) = InProgress ∧
  ∀ e, showConfirmModal (step props s e) = false ∧
       phase (step props s e) ≠ ConfirmingFinish.
Proof.
  intros Hp Hg.
  assert (Hc : clickable props FinishButton s = false).
  { unfold clickable.
    destruct (currentQuestion props s) as [current|]; [|reflexivity].
    destruct Hg as [Hi|(q & Hq & He)].
    - now rewrite (isLastQuestion_false s Hi).
    - rewrite (isAllAnswered_false s q Hq He). apply andb_false_r. }
  assert (Hm : showConfirmModal s = false).
  { unfold phase in Hp. destruct (onFinish_calls s); [|discriminate].
    destruct (showConfirmModal s); [discriminate|reflexivity]. }
  split; [exact Hc|].
  split; [unfold click; now rewrite Hc|].
  split; [unfold click; rewrite Hc; exact Hp|].
  intros e.
  assert (He : showConfirmModal (step props s e) = false).
  { destruct e as [|c]; simpl.
    - unfold tick. destruct (interval s); [|exact Hm].
      destruct (timeLeft s <=? 1)%Z; exact Hm.
    - unfold click. destruct c as [opt| | | | |].
      + destruct (clickable props (OptionButton opt) s); [|exact Hm].
        simpl. unfold handleOptionToggle.
        destruct (currentQuestion props s); exact Hm.
      + destruct (clickable props PreviousButton s); exact Hm.
      + destruct (clickable props NextButton s); exact Hm.
      + rewrite Hc. exact Hm.
      + destruct (clickable props CancelButton s); [reflexivity|exact Hm].
      + destruct (clickable props ConfirmButton s); exact Hm. }
  split; [exact He|].
  unfold phase. rewrite He. destruct (onFinish_calls (step props s e));
    discriminate.
Qed.

(** When the button does let the click through, the dialog opens. *)
Lemma finish_button_opens_dialog (s : State) :
  phase s = InProgress → clickable props FinishButton s = true →
  phase (click props FinishButton s) = ConfirmingFinish.
Proof.
  intros Hp Hc. unfold click. rewrite Hc. simpl.
  unfold phase in *. simpl. destruct (onFinish_calls s); [reflexivity|].
  discriminate.
Qed.

(** C9: on a multiple-choice question, two calls of
    [handleOptionToggle] with the same option both succeed and leave
    the question with the same selected options as before, whatever the
    state of the session; when the option was not selected before (so
    also when nothing was), the array of selected options is the same
    array again. *)
Theorem toggle_twice_restores (opt : string) (s : State) (q : Question) :
  currentQuestion props s = Some q →
  question_type q = multiple_choice →
  ∃ s1 s2,
    handleOptionToggle props opt s = Some s1 ∧
    handleOptionToggle props opt s1 = Some s2 ∧
    (∀ x, x ∈ selected (answers s2) (id q)
          ↔ x ∈ selected (answers s) (id q)) ∧
    (opt ∉ selected (answers s) (id q) →
     selected (answers s2) (id q) = selected (answers s) (id q)) ∧
    (selected (answers s) (id q) = [] → selected (answers s2) (id q) = []).
Proof.
  intros Hq Ht.
  eexists. eexists.
  split; [apply (handleOptionToggle_multiple opt s q Hq Ht)|].
  split.
  { rewrite (handleOptionToggle_multiple opt _ q); [reflexivity| |exact Ht].
    rewrite currentQuestion_setAnswers. exact Hq. }
  cbn [answers setAnswers]. rewrite !selected_insert_eq.
  split; [intros x; apply toggle_toggle_members|].
  split; [apply toggle_toggle_absent|].
  intros E. rewrite E. apply toggle_toggle_absent, not_elem_of_nil.
Qed.

(** C10: a call of [handleOptionToggle] that returns changes the answers
    only under the id of the current question; the entries under every
    other key, hence the selected options of every question with
    another id, the index, the current question, the dialog flag, the
    calls of [onFinish], the phase and the time left are as before.
    (The question list is a prop and no part of the state.) *)
Theorem toggle_frame (opt : string) (s s' : State) :
  handleOptionToggle props opt s = Some s' →
  ∃ q, currentQuestion props s = Some q ∧
       (∀ k, k ≠ id q → answers s' !! k = answers s !! k) ∧
       (∀ q', q' ∈ questions props → id q' ≠ id q →
              selected (answers s') (id q') = selected (answers s) (id q')) ∧
       currentIdx s' = currentIdx s ∧
       currentQuestion props s' = currentQuestion props s ∧
       showConfirmModal s' = showConfirmModal s ∧
       onFinish_calls s' = onFinish_calls s ∧
       phase s' = phase s ∧
       timeLeft s' = timeLeft s.
Proof.
  unfold handleOptionToggle.
  destruct (currentQuestion props s) as [q|] eqn:Hq; [|discriminate].
  intros [= <-]. exists q. split; [reflexivity|].
  split; [intros k Hk; cbn [answers setAnswers]; now rewrite lookup_insert_ne|].
  split.
  { intros q' _ Hne. cbn [answers setAnswers].
    apply selected_insert_ne. congruence. }
  repeat split. exact Hq.
Qed.

End Handlers.

(** *** The claims at the sample session *)

Lemma state_dialog_reachable : Reachable (sample 2) state_dialog.
Proof. exists events_to_dialog. reflexivity. Qed.

(** C2, as stated, fails: [state_dialog] is reachable and its dialog is
    open with two seconds left; the first tick takes one second off, the
    second tick calls [onFinish] while the dialog is still open. *)
Lemma countdown_runs_in_dialog :
  Reachable (sample 2) state_dialog ∧
  phase state_dialog = ConfirmingFinish ∧
  timeLeft state_dialog = 2%Z ∧
  timeLeft (tick state_dialog) = 1%Z ∧
  phase (tick state_dialog) = ConfirmingFinish ∧
  showConfirmModal (tick (tick state_dialog)) = true ∧
  onFinish_calls (tick (tick state_dialog)) = [answers state_dialog] ∧
  phase (tick (tick state_dialog)) = Finished.
Proof.
  split; [exact state_dialog_reachable|].
  repeat split; vm_compute; reflexivity.
Qed.

(** The countdown of [state_dialog]. *)
Lemma countdown_ignores_dialog_witness :
  Reachable (sample 2) state_dialog ∧
  (0 < timeLimit (sample 2))%Z ∧
  phase state_dialog = ConfirmingFinish ∧
  ((1 < timeLeft state_dialog)%Z →
   timeLeft (tick state_dialog) = (timeLeft state_dialog - 1)%Z ∧
   phase (tick state_dialog) = ConfirmingFinish) ∧
  ((timeLeft state_dialog ≤ 1)%Z →
   timeLeft (tick state_dialog) = 0%Z ∧
   onFinish_calls (tick state_dialog) = [answers state_dialog] ∧
   showConfirmModal (tick state_dialog) = true ∧
   tick (tick state_dialog) = tick state_dialog).
Proof.
  assert (H1 : (0 < timeLimit (sample 2))%Z) by (simpl; lia).
  assert (H2 : phase state_dialog = ConfirmingFinish)
    by (vm_compute; reflexivity).
  split; [exact state_dialog_reachable|]. split; [exact H1|].
  split; [exact H2|].
  exact (countdown_ignores_dialog (sample 2) state_dialog
           state_dialog_reachable H1 H2).
Defined.

(** The finish button of the fresh sample session. *)
Lemma finish_button_guarded_witness :
  phase (mount (sample 0)) = InProgress ∧
  (currentIdx (mount (sample 0))
   ≠ (Z.of_nat (length (questions (sample 0))) - 1)%Z ∨
   ∃ q, q ∈ questions (sample 0) ∧
        selected (answers (mount (sample 0))) (id q) = []) ∧
  clickable (sample 0) FinishButton (mount (sample 0)) = false ∧
  click (sample 0) FinishButton (mount (sample 0)) = mount (sample 0) ∧
  phase (click (sample 0) FinishButton (mount (sample 0))) = InProgress ∧
  ∀ e, showConfirmModal (step (sample 0) (mount (sample 0)) e) = false ∧
       phase (step (sample 0) (mount (sample 0)) e) ≠ ConfirmingFinish.
Proof.
  assert (H1 : phase (mount (sample 0)) = InProgress) by reflexivity.
  assert (H2 : currentIdx (mount (sample 0))
               ≠ (Z.of_nat (length (questions (sample 0))) - 1)%Z ∨
               ∃ q, q ∈ questions (sample 0) ∧
                    selected (answers (mount (sample 0))) (id q) = [])
    by (left; simpl; lia).
  split; [exact H1|]. split; [exact H2|].
  exact (finish_button_guarded (sample 0) (mount (sample 0)) H1 H2).
Defined.

Lemma state_one_answer_reachable : Reachable (sample 1) state_one_answer.
Proof. exists [Click (OptionButton "Nein")]. reflexivity. Qed.

(** The expiry of [state_one_answer]. *)
Lemma timeout_finishes_with_current_answers_witness :
  Reachable (sample 1) state_one_answer ∧
  (0 < timeLimit (sample 1))%Z ∧
  phase state_one_answer = InProgress ∧
  (timeLeft state_one_answer ≤ 1)%Z ∧
  phase (tick state_one_answer) = Finished ∧
  onFinish_calls (tick state_one_answer) = [answers state_one_answer] ∧
  showConfirmModal (tick state_one_answer) = false ∧
  timeLeft (tick state_one_answer) = 0%Z ∧
  answers (tick state_one_answer) = answers state_one_answer ∧
  interval (tick state_one_answer) = None.
Proof.
  assert (H1 : (0 < timeLimit (sample 1))%Z) by (simpl; lia).
  assert (H2 : phase state_one_answer = InProgress)
    by (vm_compute; reflexivity).
  assert (H3 : (timeLeft state_one_answer ≤ 1)%Z) by (vm_compute; discriminate).
  split; [exact state_one_answer_reachable|]. split; [exact H1|].
  split; [exact H2|]. split; [exact H3|].
  exact (timeout_finishes_with_current_answers (sample 1) state_one_answer
           state_one_answer_reachable H1 H2 H3).
Defined.

(** With a limit of one second and one answer given, the tick ends the
    session and hands over that one answer; two questions are
    unanswered. *)
Example one_second_limit :
  onFinish_calls (tick state_one_answer) = [ {[ Some 1%Z := ["Nein"] ]} ] ∧
  isAllAnswered (sample 1) state_one_answer = false ∧
  phase (tick state_one_answer) = Finished.
Proof. repeat split; vm_compute; reflexivity. Qed.

(** Two clicks on Ja in the fresh sample session. *)
Lemma toggle_twice_restores_witness :
  currentQuestion (sample 0) (mount (sample 0)) = Some first_question ∧
  question_type first_question = multiple_choice ∧
  ∃ s1 s2,
    handleOptionToggle (sample 0) "Ja" (mount (sample 0)) = Some s1 ∧
    handleOptionToggle (sample 0) "Ja" s1 = Some s2 ∧
    (∀ x, x ∈ selected (answers s2) (id first_question)
          ↔ x ∈ selected (answers (mount (sample 0))) (id first_question)) ∧
    ("Ja" ∉ selected (answers (mount (sample 0))) (id first_question) →
     selected (answers s2) (id first_question)
     = selected (answers (mount (sample 0))) (id first_question)) ∧
    (selected (answers (mount (sample 0))) (id first_question) = [] →
     selected (answers s2) (id first_question) = []).
Proof.
  assert (H1 : currentQuestion (sample 0) (mount (sample 0))
               = Some first_question) by reflexivity.
  assert (H2 : question_type first_question = multiple_choice)
    by reflexivity.
  split; [exact H1|]. split; [exact H2|].
  exact (toggle_twice_restores (sample 0) "Ja" (mount (sample 0))
           first_question H1 H2).
Defined.

(** The array keeps the order of the clicks: with Ja and Nein selected
    in this order, two clicks on Ja leave Nein and Ja. *)
Example toggle_twice_order :
  selected (answers (run (sample 0)
              [Click (OptionButton "Ja"); Click (OptionButton "Nein")]))
           (Some 1%Z) = ["Ja"; "Nein"] ∧
  selected (answers (run (sample 0)
              [Click (OptionButton "Ja"); Click (OptionButton "Nein");
               Click (OptionButton "Ja"); Click (OptionButton "Ja")]))
           (Some 1%Z) = ["Nein"; "Ja"].
Proof. split; vm_compute; reflexivity. Qed.

(** The first click on Ja in the fresh sample session. *)
Lemma toggle_frame_witness :
  handleOptionToggle (sample 0) "Ja" (mount (sample 0))
  = Some state_after_toggle ∧
  ∃ q, currentQuestion (sample 0) (mount (sample 0)) = Some q ∧
       (∀ k, k ≠ id q →
             answers state_after_toggle !! k = answers (mount (sample 0)) !! k) ∧
       (∀ q', q' ∈ questions (sample 0) → id q' ≠ id q →
              selected (answers state_after_toggle) (id q')
              = selected (answers (mount (sample 0))) (id q')) ∧
       currentIdx state_after_toggle = currentIdx (mount (sample 0)) ∧
       currentQuestion (sample 0) state_after_toggle
       = currentQuestion (sample 0) (mount (sample 0)) ∧
       showConfirmModal state_after_toggle
       = showConfirmModal (mount (sample 0)) ∧
       onFinish_calls state_after_toggle = onFinish_calls (mount (sample 0)) ∧
       phase state_after_toggle = phase (mount (sample 0)) ∧
       timeLeft state_after_toggle = timeLeft (mount (sample 0)).
Proof.
  assert (H : handleOptionToggle (sample 0) "Ja" (mount (sample 0))
              = Some state_after_toggle) by (vm_compute; reflexivity).
  split; [exact H|].
  exact (toggle_frame (sample 0) "Ja" (mount (sample 0)) state_after_toggle H).
Defined.

End QuizProofs.

(** ** More about the CSV import *)

Module ImportCoverage.
Import Js JsFacts AdminDashboard ImportProofs.

(** *** Appending strings *)

Lemma append_cons (c : ascii) (r t : string) :
  String c r +:+ t = String c (r +:+ t).
Proof. reflexivity. Qed.

Lemma append_nil_r (s : string) : s +:+ "" = s.
Proof.
  induction s as [|c r IH]; [reflexivity|]. now rewrite append_cons, IH.
Qed.

Lemma append_assoc (a b c : string) : (a +:+ b) +:+ c = a +:+ (b +:+ c).
Proof.
  induction a as [|x r IH]; [reflexivity|]. now rewrite !append_cons, IH.
Qed.

(** *** Trimming *)

Lemma trimEnd_snoc_whitespace (s : string) (w : ascii) :
  is_whitespace w = true → trimEnd (s +:+ String w "") = trimEnd s.
Proof.
  intros Hw. induction s as [|c r IH].
  - simpl. now rewrite Hw.
  - rewrite append_cons. simpl. now rewrite IH.
Qed.

Lemma trimStart_snoc_whitespace (s : string) (w : ascii) :
  is_whitespace w = true →
  trimStart (s +:+ String w "")
  = if is_empty (trimStart s) then "" else trimStart s +:+ String w "".
Proof.
  intros Hw. induction s as [|c r IH].
  - simpl. now rewrite Hw.
  - rewrite append_cons. simpl. destruct (is_whitespace c); [exact IH|].
    reflexivity.
Qed.

Lemma trim_snoc_whitespace (s : string) (w : ascii) :
  is_whitespace w = true → trim (s +:+ String w "") = trim s.
Proof.
  intros Hw. unfold trim. rewrite trimStart_snoc_whitespace by exact Hw.
  destruct (trimStart s) as [|c r] eqn:E; [reflexivity|].
  simpl is_empty. cbv iota. now apply trimEnd_snoc_whitespace.
Qed.

Lemma trim_cons_whitespace (s : string) (w : ascii) :
  is_whitespace w = true → trim (String w s) = trim s.
Proof. intros Hw. unfold trim. simpl. now rewrite Hw. Qed.

Lemma trim_fixed_trimEnd (s : string) : trim s = s → trimEnd s = s.
Proof.
  intros H. rewrite <- H at 1. unfold trim. rewrite trimEnd_idem. exact H.
Qed.

Lemma trim_fixed_head (s : string) :
  trim s = s → s = "" ∨ ∃ c r, s = String c r ∧ is_whitespace c = false.
Proof. intros H. rewrite <- H. apply trim_head. Qed.

Lemma trimEnd_append_fixed (a b : string) :
  trimEnd b = b → b ≠ "" → trimEnd (a +:+ b) = a +:+ b.
Proof.
  intros Hb Hne. induction a as [|c r IH]; [exact Hb|].
  rewrite append_cons. simpl. rewrite IH.
  destruct (r +:+ b) eqn:E.
  - destruct r; [exact (False_ind _ (Hne E))|].
    rewrite append_cons in E. discriminate.
  - simpl. now rewrite andb_false_r.
Qed.

(** X2: white space around a line does not matter to the parser.  A line
    with one more white-space character at its end (the carriage return
    of a file with CR LF line ends, a blank, a tab) or at its start gives
    the loop the same result as the line without it. *)
Theorem line_whitespace_ignored (result : list CsvRow) (line : string)
        (w : ascii) :
  is_whitespace w = true →
  parseCSV_line result (line +:+ String w "") = parseCSV_line result line ∧
  parseCSV_line result (String w line) = parseCSV_line result line.
Proof.
  intros Hw. unfold parseCSV_line.
  rewrite trim_snoc_whitespace, trim_cons_whitespace by exact Hw.
  split; reflexivity.
Qed.

(** A row that ends with a carriage return. *)
Lemma line_whitespace_ignored_witness :
  is_whitespace "013"%char = true ∧
  parseCSV_line [] ("Sit,single choice,Sitz;Platz,Sitz,Koalatest"
                    +:+ String "013"%char "")
  = parseCSV_line [] "Sit,single choice,Sitz;Platz,Sitz,Koalatest" ∧
  parseCSV_line [] (String "013"%char
                      "Sit,single choice,Sitz;Platz,Sitz,Koalatest")
  = parseCSV_line [] "Sit,single choice,Sitz;Platz,Sitz,Koalatest".
Proof.
  assert (H : is_whitespace "013"%char = true) by reflexivity.
  split; [exact H|].
  exact (line_whitespace_ignored []
           "Sit,single choice,Sitz;Platz,Sitz,Koalatest" "013"%char H).
Defined.

(** *** The first line *)

Lemma parseCSV_lines_cons (first : string) (rest : list string) :
  parseCSV_lines (first :: rest) = fold_left parseCSV_line rest [].
Proof. unfold parseCSV_lines. simpl. now rewrite drop_0. Qed.

(** X1: the first line of the file is skipped whatever it holds.  Two
    files that differ only in their first line parse to the same rows and
    have the same outcome, and a file of one line has no rows: its import
    fails with the message for no usable rows, even if that line is a
    well-formed question. *)
Theorem first_line_ignored (first first' rest : string) :
  has_char newline first = false →
  has_char newline first' = false →
  parseCSV (first +:+ String newline rest)
  = parseCSV (first' +:+ String newline rest) ∧
  ingest (first +:+ String newline rest)
  = ingest (first' +:+ String newline rest) ∧
  parseCSV first = [] ∧
  ingest first = ImportError msg_none_valid.
Proof.
  intros H1 H2.
  assert (E : parseCSV (first +:+ String newline rest)
              = parseCSV (first' +:+ String newline rest)).
  { unfold parseCSV.
    rewrite !split_app, (split_no_sep _ _ H1), (split_no_sep _ _ H2).
    simpl app. now rewrite !parseCSV_lines_cons. }
  assert (F : parseCSV first = []).
  { unfold parseCSV. rewrite (split_no_sep _ _ H1). reflexivity. }
  split; [exact E|]. split; [unfold ingest, process; now rewrite E|].
  split; [exact F|]. unfold ingest, process. rewrite F. reflexivity.
Qed.

(** A good row in the place of the header. *)
Lemma first_line_ignored_witness :
  has_char newline "Sit,single choice,Sitz;Platz,Sitz,Koalatest" = false ∧
  has_char newline header = false ∧
  parseCSV ("Sit,single choice,Sitz;Platz,Sitz,Koalatest"
            +:+ String newline "Platz,multiple choice,Ja;Nein,Ja,Koalatest")
  = parseCSV (header
              +:+ String newline "Platz,multiple choice,Ja;Nein,Ja,Koalatest") ∧
  ingest ("Sit,single choice,Sitz;Platz,Sitz,Koalatest"
          +:+ String newline "Platz,multiple choice,Ja;Nein,Ja,Koalatest")
  = ingest (header
            +:+ String newline "Platz,multiple choice,Ja;Nein,Ja,Koalatest") ∧
  parseCSV "Sit,single choice,Sitz;Platz,Sitz,Koalatest" = [] ∧
  ingest "Sit,single choice,Sitz;Platz,Sitz,Koalatest"
  = ImportError msg_none_valid.
Proof.
  assert (H1 : has_char newline "Sit,single choice,Sitz;Platz,Sitz,Koalatest"
               = false) by reflexivity.
  assert (H2 : has_char newline header = false) by reflexivity.
  split; [exact H1|]. split; [exact H2|].
  exact (first_line_ignored "Sit,single choice,Sitz;Platz,Sitz,Koalatest"
           header "Platz,multiple choice,Ja;Nein,Ja,Koalatest" H1 H2).
Defined.

(** *** The scanner on quoted and unquoted fields *)

Lemma scan_dquote (rest : string) (inQuote : bool) (buffer : string)
      (matches : list string) :
  scan (String dquote rest) inQuote buffer matches
  = scan rest (negb inQuote) buffer matches.
Proof. reflexivity. Qed.

Lemma scan_comma (rest buffer : string) (matches : list string) :
  scan (String comma rest) false buffer matches
  = scan rest false "" (matches ++ [buffer]).
Proof. reflexivity. Qed.

Lemma scan_matches (chars : string) :
  ∀ inQuote buffer matches,
    scan chars inQuote buffer matches
    = matches ++ scan chars inQuote buffer [].
Proof.
  induction chars as [|char rest IH]; intros inQuote buffer matches.
  - reflexivity.
  - simpl. destruct (Ascii.eqb char dquote); [apply IH|].
    destruct (Ascii.eqb char comma && negb inQuote); [|apply IH].
    rewrite IH, (IH _ _ ([] ++ [buffer])), <- app_assoc. reflexivity.
Qed.

(** Inside quotes every character but a quote goes to the buffer. *)
Lemma scan_in_quote (s : string) :
  ∀ rest buffer matches,
    quote_free s →
    scan (s +:+ rest) true buffer matches
    = scan rest true (buffer +:+ s) matches.
Proof.
  induction s as [|c r IH]; intros rest buffer matches Hs.
  - now rewrite append_nil_r.
  - apply quote_free_cons in Hs as [Hc Hr].
    rewrite append_cons. simpl scan. rewrite Hc, andb_false_r.
    rewrite (IH _ _ _ Hr), append_assoc, append_cons. reflexivity.
Qed.

(** Outside quotes every character but a quote and a comma does. *)
Lemma scan_unquoted (s : string) :
  ∀ rest buffer matches,
    quote_free s → has_char comma s = false →
    scan (s +:+ rest) false buffer matches
    = scan rest false (buffer +:+ s) matches.
Proof.
  induction s as [|c r IH]; intros rest buffer matches Hs Hk.
  - now rewrite append_nil_r.
  - apply quote_free_cons in Hs as [Hc Hr].
    simpl in Hk. apply orb_false_iff in Hk as [Hck Hrk].
    rewrite append_cons. simpl scan. rewrite Hc, Hck. simpl andb. cbv iota.
    rewrite (IH _ _ _ Hr Hrk), append_assoc, append_cons. reflexivity.
Qed.

(** X3: a field in quotes keeps its commas.  When a line starts with a
    quoted text that has no quote inside, the first field is that text,
    trimmed, with every comma it holds, and the rest of the line is
    tokenized as a line of its own; a line that is just the quoted text
    is one field. *)
Theorem quoted_field_keeps_commas (s rest : string) :
  quote_free s →
  tokenize (quoted s +:+ String comma rest) = trim s :: tokenize rest ∧
  tokenize (quoted s) = [trim s].
Proof.
  intros Hs. unfold tokenize, quoted. split.
  - rewrite !append_cons, append_assoc, append_cons.
    change ("" +:+ String comma rest) with (String comma rest).
    rewrite scan_dquote. simpl negb. rewrite (scan_in_quote s _ _ _ Hs).
    rewrite scan_dquote, scan_comma, scan_matches. simpl negb. simpl map.
    change ("" +:+ s) with s. now rewrite (clean_quote_free s Hs).
  - rewrite append_cons, scan_dquote. simpl negb.
    rewrite (scan_in_quote s _ _ _ Hs), scan_dquote. simpl.
    change ("" +:+ s) with s. now rewrite (clean_quote_free s Hs).
Qed.

(** A quoted question text with two commas. *)
Lemma quoted_field_keeps_commas_witness :
  quote_free "Sitz, Platz, oder Bleib?" ∧
  tokenize (quoted "Sitz, Platz, oder Bleib?"
            +:+ String comma "single choice,Ja;Nein,Ja,Koalatest")
  = trim "Sitz, Platz, oder Bleib?"
    :: tokenize "single choice,Ja;Nein,Ja,Koalatest" ∧
  tokenize (quoted "Sitz, Platz, oder Bleib?")
  = [trim "Sitz, Platz, oder Bleib?"].
Proof.
  assert (H : quote_free "Sitz, Platz, oder Bleib?") by reflexivity.
  split; [exact H|].
  exact (quoted_field_keeps_commas "Sitz, Platz, oder Bleib?"
           "single choice,Ja;Nein,Ja,Koalatest" H).
Defined.

(** *** Lines written from plain fields *)

(** A field that needs no quoting and is already trimmed. *)
Definition plain_field (f : string) : Prop :=
  quote_free f ∧ has_char comma f = false ∧ trim f = f.

Definition comma_line (fields : list string) : string :=
  String.concat (String comma "") fields.

Lemma comma_line_cons (f g : string) (fields : list string) :
  comma_line (f :: g :: fields) = f +:+ String comma (comma_line (g :: fields)).
Proof. reflexivity. Qed.

Lemma scan_comma_line (fields : list string) :
  ∀ buffer matches,
    Forall plain_field fields → fields ≠ [] →
    scan (comma_line fields) false buffer matches
    = matches ++ (buffer +:+ hd "" fields) :: tl fields.
Proof.
  induction fields as [|f fields IH]; intros buffer matches Hall Hne;
    [congruence|].
  apply Forall_cons in Hall as [(Hq & Hk & _) Hall].
  destruct fields as [|g fields].
  - change (comma_line [f]) with f. rewrite <- (append_nil_r f) at 1.
    now rewrite (scan_unquoted f _ _ _ Hq Hk).
  - rewrite comma_line_cons, (scan_unquoted f _ _ _ Hq Hk), scan_comma.
    rewrite (IH _ _ Hall) by discriminate. simpl hd. simpl tl.
    change ("" +:+ g) with g. now rewrite <- app_assoc.
Qed.

Lemma trimEnd_comma_line (fields : list string) :
  Forall plain_field fields → fields ≠ [] →
  trimEnd (comma_line fields) = comma_line fields.
Proof.
  induction fields as [|f fields IH]; intros Hall Hne; [congruence|].
  apply Forall_cons in Hall as [(_ & _ & Ht) Hall].
  destruct fields as [|g fields].
  - apply trim_fixed_trimEnd, Ht.
  - rewrite comma_line_cons. apply trimEnd_append_fixed; [|discriminate].
    simpl trimEnd. rewrite (IH Hall) by discriminate. reflexivity.
Qed.

Lemma trim_comma_line (fields : list string) :
  Forall plain_field fields → (2 ≤ length fields)%nat →
  trim (comma_line fields) = comma_line fields ∧
  is_empty (comma_line fields) = false.
Proof.
  intros Hall Hlen.
  destruct fields as [|f [|g fields]]; [simpl in Hlen; lia..|].
  assert (Hend := trimEnd_comma_line _ Hall ltac:(discriminate)).
  apply Forall_cons in Hall as [(_ & _ & Ht) _].
  rewrite comma_line_cons in *.
  destruct (trim_fixed_head f Ht) as [->|(c & r & -> & Hc)].
  - change ("" +:+ ?x) with x in *. split; [|reflexivity].
    unfold trim. simpl trimStart. exact Hend.
  - rewrite append_cons in *. split; [|reflexivity].
    unfold trim. simpl trimStart. rewrite Hc. exact Hend.
Qed.

Lemma map_clean_plain (fields : list string) :
  Forall plain_field fields → map clean fields = fields.
Proof.
  induction 1 as [|f fields (Hq & _ & Ht) _ IH]; [reflexivity|].
  simpl. now rewrite IH, (clean_quote_free f Hq), Ht.
Qed.

(** X4: a line written as five or more plain fields (no quote, no comma,
    no white space around) with commas between them is read back as
    exactly these fields: the loop appends one row whose fields are the
    first five, in their order, and fields after the fifth are left
    out. *)
Theorem plain_line_read_back (result : list CsvRow) (fields : list string) :
  Forall plain_field fields → (5 ≤ length fields)%nat →
  tokenize (comma_line fields) = fields ∧
  parseCSV_line result (comma_line fields)
  = result ++ [ {| question := nth 0 fields "";
                   row_question_type := nth 1 fields "";
                   answers_field := nth 2 fields "";
                   correct_answers_field := nth 3 fields "";
                   row_category := nth 4 fields "" |} ].
Proof.
  intros Hall Hlen.
  assert (Hne : fields ≠ []) by (destruct fields; [simpl in Hlen; lia|discriminate]).
  assert (Htok : tokenize (comma_line fields) = fields).
  { unfold tokenize. rewrite (scan_comma_line fields _ _ Hall Hne).
    destruct fields as [|f fields]; [congruence|].
    simpl hd. simpl tl. change ("" +:+ f) with f. simpl app.
    apply map_clean_plain, Hall. }
  split; [exact Htok|].
  destruct (trim_comma_line fields Hall ltac:(lia)) as [Htrim Hemp].
  unfold parseCSV_line. rewrite Htrim, Hemp, Htok.
  apply Nat.leb_le in Hlen. rewrite Hlen. reflexivity.
Qed.

(** A row of six fields. *)
Lemma plain_line_read_back_witness :
  Forall plain_field
         ["Sit"; "single choice"; "Sitz;Platz"; "Sitz"; "Koalatest"; "x"] ∧
  (5 ≤ length ["Sit"; "single choice"; "Sitz;Platz"; "Sitz"; "Koalatest"; "x"])%nat ∧
  tokenize
    (comma_line ["Sit"; "single choice"; "Sitz;Platz"; "Sitz"; "Koalatest"; "x"])
  = ["Sit"; "single choice"; "Sitz;Platz"; "Sitz"; "Koalatest"; "x"] ∧
  parseCSV_line []
    (comma_line ["Sit"; "single choice"; "Sitz;Platz"; "Sitz"; "Koalatest"; "x"])
  = [] ++ [ {| question :=
                 nth 0 ["Sit"; "single choice"; "Sitz;Platz"; "Sitz";
                        "Koalatest"; "x"] "";
               row_question_type :=
                 nth 1 ["Sit"; "single choice"; "Sitz;Platz"; "Sitz";
                        "Koalatest"; "x"] "";
               answers_field :=
                 nth 2 ["Sit"; "single choice"; "Sitz;Platz"; "Sitz";
                        "Koalatest"; "x"] "";
               correct_answers_field :=
                 nth 3 ["Sit"; "single choice"; "Sitz;Platz"; "Sitz";
                        "Koalatest"; "x"] "";
               row_category :=
                 nth 4 ["Sit"; "single choice"; "Sitz;Platz"; "Sitz";
                        "Koalatest"; "x"] "" |} ].
Proof.
  assert (H1 : Forall plain_field
                 ["Sit"; "single choice"; "Sitz;Platz"; "Sitz"; "Koalatest"; "x"])
    by (repeat constructor).
  assert (H2 : (5 ≤ length ["Sit"; "single choice"; "Sitz;Platz"; "Sitz";
                            "Koalatest"; "x"])%nat) by (simpl; lia).
  split; [exact H1|]. split; [exact H2|].
  exact (plain_line_read_back []
           ["Sit"; "single choice"; "Sitz;Platz"; "Sitz"; "Koalatest"; "x"]
           H1 H2).
Defined.

(** *** What becomes of the parsed rows *)

Lemma map_rows_accounted (rows : list CsvRow) :
  ∀ n, (length (keep_all (fst (map_rows rows n))) + snd (map_rows rows n)
        ≤ length rows + n)%nat.
Proof.
  induction rows as [|row rows IH]; intros n; [simpl; lia|].
  rewrite map_rows_cons. cbn [fst snd length].
  destruct (valid_type row) eqn:Hv.
  - destruct (convert_row_valid row n Hv) as (q & -> & _). cbn [fst snd].
    rewrite keep_all_cons_Some. specialize (IH n).
    destruct (keep (Some q)); cbn [length]; lia.
  - rewrite (convert_row_invalid row n Hv). cbn [fst snd].
    rewrite keep_all_cons_None. specialize (IH (S n)). lia.
Qed.

(** X5: what the counter of the import counts.  [skippedCount] is the
    number of parsed rows whose type is invalid, nothing else: a row that
    the filter drops for an empty question text or an empty answer list
    is not counted.  Accepted questions and skipped rows together never
    exceed the parsed rows. *)
Theorem rows_accounted (text : string) :
  skipped text
  = length (filter (λ row, valid_type row = false) (parseCSV text)) ∧
  (length (accepted text) + skipped text ≤ length (parseCSV text))%nat.
Proof.
  split; [apply skipped_count|].
  unfold accepted, skipped, process.
  pose proof (map_rows_accounted (parseCSV text) 0) as H.
  destruct (map_rows (parseCSV text) 0) as [mapped k]. simpl in *. lia.
Qed.

(** A row without question text is dropped without being counted, so the
    import fails with the message for no usable rows. *)
Example row_dropped_uncounted :
  length (parseCSV (lines_of [header; ",single choice,Ja;Nein,Ja,Koalatest"]))
  = 1%nat ∧
  ingest (lines_of [header; ",single choice,Ja;Nein,Ja,Koalatest"])
  = ImportError msg_none_valid.
Proof. split; vm_compute; reflexivity. Qed.

(** *** The type of a row *)

Lemma normalize_type_trim (raw : string) :
  (if truthy raw then trim raw else "") = trim raw.
Proof. destruct raw; reflexivity. Qed.

(** X6: which types the import takes.  With [t] the trimmed type field of
    a row, the row becomes a single-choice question exactly when [t] is
    the words single choice in any mix of upper and lower case or is
    literally single_choice, a multiple-choice question exactly when the
    same holds for multiple choice and multiple_choice, and is skipped
    (counter plus one) in every other case; the spelling with the
    underscore is taken in lower case only. *)
Theorem type_normalization (row : CsvRow) (n : nat) :
  match fst (convert_row row n) with
  | Some q =>
      (question_type q = single_choice ∧
       (toLowerCase (trim (row_question_type row)) = "single choice" ∨
        trim (row_question_type row) = "single_choice")) ∨
      (question_type q = multiple_choice ∧
       (toLowerCase (trim (row_question_type row)) = "multiple choice" ∨
        trim (row_question_type row) = "multiple_choice"))
  | None =>
      toLowerCase (trim (row_question_type row)) ≠ "single choice" ∧
      toLowerCase (trim (row_question_type row)) ≠ "multiple choice" ∧
      trim (row_question_type row) ≠ "single_choice" ∧
      trim (row_question_type row) ≠ "multiple_choice" ∧
      snd (convert_row row n) = S n
  end.
Proof.
  unfold convert_row, normalize_type. cbv zeta.
  rewrite normalize_type_trim.
  set (t := trim (row_question_type row)).
  destruct (String.eqb_spec (toLowerCase t) "single choice") as [E1|E1].
  { simpl. left. split; [reflexivity|now left]. }
  destruct (String.eqb_spec (toLowerCase t) "multiple choice") as [E2|E2].
  { simpl. right. split; [reflexivity|now left]. }
  destruct (String.eqb_spec t "single_choice") as [E3|E3].
  { simpl. left. split; [reflexivity|now right]. }
  destruct (String.eqb_spec t "multiple_choice") as [E4|E4].
  { simpl. right. split; [reflexivity|now right]. }
  simpl. repeat split; assumption.
Qed.

Example type_spellings :
  normalize_type "  Single Choice " = "single_choice" ∧
  normalize_type "MULTIPLE CHOICE" = "multiple_choice" ∧
  normalize_type "multiple_choice" = "multiple_choice" ∧
  normalize_type "Single_Choice" = "Single_Choice" ∧
  valid_type (mkCsvRow "Sit" "Single_Choice" "Ja;Nein" "Ja" "Koalatest")
  = false.
Proof. repeat split; vm_compute; reflexivity. Qed.

(** *** The category table *)

(** X7: renaming a category twice is renaming it once.  When the lookup
    in the category table gives a string, looking that string up again
    gives the same string: the new names are not themselves keys of the
    table. *)
Theorem category_rename_idempotent (category renamed : string) :
  CATEGORY_MAP_or category = CatString renamed →
  CATEGORY_MAP_or renamed = CatString renamed.
Proof.
  unfold CATEGORY_MAP_or at 1.
  destruct (String.eqb category "Koalatest") eqn:E1.
  { intros [= <-]. vm_compute. reflexivity. }
  destruct (String.eqb category "Hundetrainer Testfragen") eqn:E2.
  { intros [= <-]. vm_compute. reflexivity. }
  destruct (arr_includes object_prototype_keys category) eqn:E3;
    [discriminate|].
  intros [= <-]. unfold CATEGORY_MAP_or. now rewrite E1, E2, E3.
Qed.

(** The old name of the first category. *)
Lemma category_rename_idempotent_witness :
  CATEGORY_MAP_or "Koalatest" = CatString Hundefuehrerschein ∧
  CATEGORY_MAP_or Hundefuehrerschein = CatString Hundefuehrerschein.
Proof.
  assert (H : CATEGORY_MAP_or "Koalatest" = CatString Hundefuehrerschein)
    by reflexivity.
  split; [exact H|].
  exact (category_rename_idempotent "Koalatest" Hundefuehrerschein H).
Defined.

(** *** Lists of answers *)

Definition semicolon_list (tokens : list string) : string :=
  String.concat (String semicolon "") tokens.

Lemma split_concat (sep : ascii) (tokens : list string) :
  Forall (λ t, has_char sep t = false) tokens → tokens ≠ [] →
  split sep (String.concat (String sep "") tokens) = tokens.
Proof.
  induction tokens as [|t tokens IH]; intros Hall Hne; [congruence|].
  apply Forall_cons in Hall as [Ht Hall].
  destruct tokens as [|u tokens].
  - simpl. apply split_no_sep, Ht.
  - change (String.concat (String sep "") (t :: u :: tokens))
      with (t +:+ String sep (String.concat (String sep "") (u :: tokens))).
    rewrite split_app, (split_no_sep _ _ Ht), IH by (assumption || discriminate).
    reflexivity.
Qed.

(** X8: a list of answers written with semicolons is read back as it was.
    For answers that are not empty, have no white space around and hold
    no semicolon, splitting their semicolon-separated text gives the same
    answers in the same order (duplicates included); the empty list is
    read back from the empty text. *)
Theorem answers_read_back (tokens : list string) :
  Forall (λ t, t ≠ "" ∧ trim t = t ∧ has_char semicolon t = false) tokens →
  split_list (semicolon_list tokens) = tokens.
Proof.
  intros Hall. unfold split_list, semicolon_list.
  destruct tokens as [|t tokens]; [reflexivity|].
  assert (Hsep : Forall (λ u, has_char semicolon u = false) (t :: tokens)).
  { eapply Forall_impl; [exact Hall|]. intros u (_ & _ & H). exact H. }
  rewrite (split_concat _ _ Hsep) by discriminate. clear Hsep.
  induction Hall as [|u us (Hne & Ht & _) _ IH]; [reflexivity|].
  simpl map. rewrite Ht. rewrite filter_cons_True.
  - now rewrite IH.
  - destruct u; [congruence|exact I].
Qed.

(** Three answers, one of them twice. *)
Lemma answers_read_back_witness :
  Forall (λ t, t ≠ "" ∧ trim t = t ∧ has_char semicolon t = false)
         ["Sitz"; "Platz und Bleib"; "Sitz"] ∧
  split_list (semicolon_list ["Sitz"; "Platz und Bleib"; "Sitz"])
  = ["Sitz"; "Platz und Bleib"; "Sitz"].
Proof.
  assert (H : Forall (λ t, t ≠ "" ∧ trim t = t ∧ has_char semicolon t = false)
                     ["Sitz"; "Platz und Bleib"; "Sitz"])
    by (repeat constructor; discriminate).
  split; [exact H|].
  exact (answers_read_back ["Sitz"; "Platz und Bleib"; "Sitz"] H).
Defined.

End ImportCoverage.

(** ** The editor and the question table *)

Module DashboardProofs.
Import Js JsFacts AdminDashboard.

(** *** The editor keeps the answers consistent *)

(** The correct answers are among the answers, and a single-choice
    question has at most one of them. *)
Definition answers_consistent (q : Question) : Prop :=
  correct_answers q ⊆ all_answers q ∧
  (question_type q = single_choice → (length (correct_answers q) ≤ 1)%nat).

Lemma insert_keeps_others (l : list string) (idx : nat) (old v x : string) :
  l !! idx = Some old → x ∈ l → x ≠ old → x ∈ <[idx := v]> l.
Proof.
  intros Hold [j Hj]%list_elem_of_lookup Hne.
  apply list_elem_of_lookup. exists j.
  rewrite list_lookup_insert_ne; [exact Hj|]. intros ->. congruence.
Qed.

Lemma insert_has_new (l : list string) (idx : nat) (old v : string) :
  l !! idx = Some old → v ∈ <[idx := v]> l.
Proof.
  intros Hold. apply list_elem_of_lookup. exists idx.
  apply list_lookup_insert_eq. eapply lookup_lt_Some, Hold.
Qed.

Lemma delete_keeps_others (l : list string) (idx : nat) (answer x : string) :
  l !! idx = Some answer → x ∈ l → x ≠ answer → x ∈ delete idx l.
Proof.
  intros Hidx [j Hj]%list_elem_of_lookup Hne.
  assert (j ≠ idx) by (intros ->; congruence).
  apply list_elem_of_lookup.
  destruct (decide (j < idx)%nat) as [Hlt|Hge].
  - exists j. now rewrite list_lookup_delete_lt.
  - exists (j - 1)%nat. rewrite list_lookup_delete_ge by lia.
    replace (S (j - 1)) with j by lia. exact Hj.
Qed.

Lemma edit_consistent (q : Question) (a : EditorAction) :
  answers_consistent q → answers_consistent (edit q a).
Proof.
  intros [Hsub Hlen]. destruct a as [idx checked|idx value|idx| |t|value|value];
    simpl.
  - destruct (all_answers q !! idx) as [answer|] eqn:E; [|now split].
    assert (Hin : answer ∈ all_answers q) by (eapply list_elem_of_lookup_2, E).
    split; simpl.
    + destruct (question_type q).
      * intros x ->%list_elem_of_singleton. exact Hin.
      * destruct checked.
        -- intros x [Hx| ->%list_elem_of_singleton]%elem_of_app;
             [now apply Hsub|exact Hin].
        -- intros x [_ Hx]%list_elem_of_filter. now apply Hsub.
    + intros Ht. rewrite Ht. simpl. lia.
  - destruct (all_answers q !! idx) as [oldVal|] eqn:E; [|now split].
    split; simpl.
    + destruct (arr_includes (correct_answers q) oldVal) eqn:Einc.
      * intros x [[Hne Hx]%list_elem_of_filter| ->%list_elem_of_singleton]%elem_of_app.
        -- eapply insert_keeps_others; eauto.
        -- eapply insert_has_new, E.
      * intros x Hx. eapply insert_keeps_others; eauto.
        intros ->. apply QuizProofs.arr_includes_false in Einc. now apply Einc.
    + intros Ht. specialize (Hlen Ht).
      destruct (arr_includes (correct_answers q) oldVal) eqn:Einc; [|exact Hlen].
      apply QuizProofs.arr_includes_true in Einc.
      rewrite length_app. simpl.
      assert (length (filter (λ c, c ≠ oldVal) (correct_answers q))
              < length (correct_answers q))%nat
        by (eapply length_filter_lt; [exact Einc|]; intros Hne; now apply Hne).
      lia.
  - destruct (all_answers q !! idx) as [answer|] eqn:E; [|now split].
    split; simpl.
    + intros x [Hne Hx]%list_elem_of_filter.
      eapply delete_keeps_others; eauto.
    + intros Ht. specialize (Hlen Ht).
      pose proof (length_filter (λ c, c ≠ answer) (correct_answers q)). lia.
  - split; simpl; [|exact Hlen].
    intros x Hx. apply elem_of_app. left. now apply Hsub.
  - split; simpl; [|lia]. intros x Hx. inversion Hx.
  - split; assumption.
  - split; assumption.
Qed.

Lemma handleAddNew_consistent : answers_consistent handleAddNew.
Proof. split; simpl; [|lia]. intros x Hx. inversion Hx. Qed.

(** X9: the editor keeps the answers consistent.  If the correct answers
    of the question in the editor are among its answers, and there is at
    most one of them when the question is single choice, then the same
    holds after any sequence of actions in the editor: marking an answer
    as correct or not, changing the text of an answer, removing an
    answer, adding an option, changing the type, the text or the
    category. *)
Theorem editor_keeps_answers_consistent (q : Question)
        (actions : list EditorAction) :
  answers_consistent q → answers_consistent (fold_left edit actions q).
Proof.
  revert q. induction actions as [|a actions IH]; intros q H; [exact H|].
  simpl. apply IH, edit_consistent, H.
Qed.

(** A new question: two more options, their texts, the second one marked
    correct, then renamed, then the first one removed. *)
Lemma editor_keeps_answers_consistent_witness :
  answers_consistent handleAddNew ∧
  answers_consistent
    (fold_left edit
       [AddOption; AnswerChange 0 "Sitz"; AnswerChange 1 "Platz";
        CorrectChange 1 true; AnswerChange 1 "Bleib"; AnswerRemove 0]
       handleAddNew).
Proof.
  split; [exact handleAddNew_consistent|].
  exact (editor_keeps_answers_consistent handleAddNew
           [AddOption; AnswerChange 0 "Sitz"; AnswerChange 1 "Platz";
            CorrectChange 1 true; AnswerChange 1 "Bleib"; AnswerRemove 0]
           handleAddNew_consistent).
Defined.

Example editor_session :
  fold_left edit
    [AddOption; AnswerChange 0 "Sitz"; AnswerChange 1 "Platz";
     CorrectChange 1 true; AnswerChange 1 "Bleib"; AnswerRemove 0]
    handleAddNew
  = {| id := None; question_text := ""; question_type := single_choice;
       all_answers := ["Bleib"]; correct_answers := ["Bleib"];
       category := CatString Hundefuehrerschein |}.
Proof. vm_compute. reflexivity. Qed.

(** *** Deleting from the table *)

Lemma delete_filter_idem (i : Z) (qs : list Question) :
  filter (λ q, id q ≠ Some i) (filter (λ q, id q ≠ Some i) qs)
  = filter (λ q, id q ≠ Some i) qs.
Proof. apply list_filter_filter_l. tauto. Qed.

Lemma delete_filter_comm (i j : Z) (qs : list Question) :
  filter (λ q, id q ≠ Some i) (filter (λ q, id q ≠ Some j) qs)
  = filter (λ q, id q ≠ Some j) (filter (λ q, id q ≠ Some i) qs).
Proof. rewrite !list_filter_filter. apply list_filter_iff. tauto. Qed.

(** X10: what deleting does to the list of the table.  After a confirmed
    and successful delete of the id [i] the list holds exactly the
    questions it held before whose id is not [i] (so none with that id,
    and a question without id stays); deleting the same id again changes
    nothing more, and two deletes give the same list in either order.
    Without the confirmation, or when the storage call fails, the list is
    as it was. *)
Theorem handleDelete_removes_id (i j : Z) (qs : list Question) :
  (∀ q, q ∈ handleDelete true true i qs ↔ q ∈ qs ∧ id q ≠ Some i) ∧
  handleDelete true true i (handleDelete true true i qs)
  = handleDelete true true i qs ∧
  handleDelete true true i (handleDelete true true j qs)
  = handleDelete true true j (handleDelete true true i qs) ∧
  (∀ deleted, handleDelete false deleted i qs = qs) ∧
  (∀ confirmed, handleDelete confirmed false i qs = qs).
Proof.
  unfold handleDelete. simpl. split; [|split; [|split; [|split]]].
  - intros q. rewrite list_elem_of_filter. tauto.
  - apply delete_filter_idem.
  - apply delete_filter_comm.
  - reflexivity.
  - intros []; reflexivity.
Qed.

(** *** Filtering the table *)

Lemma lower_char_idem (c : ascii) : lower_char (lower_char c) = lower_char c.
Proof. destruct c as [[] [] [] [] [] [] [] []]; reflexivity. Qed.

Lemma toLowerCase_idem (s : string) :
  toLowerCase (toLowerCase s) = toLowerCase s.
Proof.
  induction s as [|c r IH]; [reflexivity|]. simpl.
  now rewrite lower_char_idem, IH.
Qed.

Lemma toLowerCase_truthy (s : string) : truthy (toLowerCase s) = truthy s.
Proof. destruct s; reflexivity. Qed.

Lemma matchesSearch_lower (term : string) (q : Question) :
  matchesSearch term q
  = if truthy (toLowerCase term)
    then includes (toLowerCase term) (toLowerCase (question_text q))
    else true.
Proof. unfold matchesSearch. now rewrite toLowerCase_truthy. Qed.

Lemma filter_filter_bool (f g : Question → bool) (qs : list Question) :
  List.filter f (List.filter g qs) = List.filter (λ q, g q && f q) qs.
Proof.
  induction qs as [|q qs IH]; [reflexivity|]. simpl.
  destruct (g q); simpl; [destruct (f q)|]; now rewrite IH.
Qed.

(** X11: the two filters of the table.  Without category and without
    search term every question is listed, in its order; every listed
    question passes both tests; and filtering by category first and
    searching in the result lists the same questions as doing both at
    once. *)
Theorem table_filters (qs : list Question) (filterCategory searchTerm : string) :
  filteredQuestions qs "" "" = qs ∧
  Forall (λ q, matchesCategory filterCategory q = true
               ∧ matchesSearch searchTerm q = true)
         (filteredQuestions qs filterCategory searchTerm) ∧
  filteredQuestions (filteredQuestions qs filterCategory "") "" searchTerm
  = filteredQuestions qs filterCategory searchTerm.
Proof.
  unfold filteredQuestions. split; [|split].
  - rewrite (filter_ext _ (λ _, true)) by (intros q; reflexivity).
    induction qs as [|q qs IH]; [reflexivity|]. simpl. now rewrite IH.
  - apply List.Forall_forall. intros q [_ H]%filter_In.
    now apply andb_true_iff in H.
  - rewrite filter_filter_bool. apply filter_ext. intros q.
    unfold matchesCategory at 2, matchesSearch at 1. simpl.
    now rewrite andb_true_r.
Qed.

(** X12: the search of the table does not see upper and lower case: two
    search terms with the same lower-case form list the same questions,
    whatever the category filter. *)
Theorem search_ignores_case (qs : list Question)
        (filterCategory term term' : string) :
  toLowerCase term = toLowerCase term' →
  filteredQuestions qs filterCategory term
  = filteredQuestions qs filterCategory term'.
Proof.
  intros E. unfold filteredQuestions. apply filter_ext. intros q.
  now rewrite (matchesSearch_lower term), (matchesSearch_lower term'), E.
Qed.

Definition table_sample : list Question :=
  [ mkQuestion (Some 1%Z) "Was bedeutet Sitz?" single_choice
               ["Ja"; "Nein"] ["Ja"] (CatString Hundefuehrerschein);
    mkQuestion (Some 2%Z) "Wann ruft man Platz?" single_choice
               ["Ja"; "Nein"] ["Nein"] (CatString Trainerpruefung) ].

(** The word SITZ in capitals and in small letters. *)
Lemma search_ignores_case_witness :
  toLowerCase "SITZ" = toLowerCase "sitz" ∧
  filteredQuestions table_sample "" "SITZ"
  = filteredQuestions table_sample "" "sitz".
Proof.
  assert (H : toLowerCase "SITZ" = toLowerCase "sitz") by reflexivity.
  split; [exact H|].
  exact (search_ignores_case table_sample "" "SITZ" "sitz" H).
Defined.

Example search_sample :
  map id (filteredQuestions table_sample "" "SITZ") = [Some 1%Z] ∧
  map id (filteredQuestions table_sample Trainerpruefung "") = [Some 2%Z] ∧
  filteredQuestions table_sample Trainerpruefung "sitz" = [].
Proof. repeat split; vm_compute; reflexivity. Qed.

End DashboardProofs.

(** ** More about the quiz session *)

Module SessionProofs.
Import QuizGame QuizProofs.

Section Session.

Variable props : Props.

(** A property of the fresh session that every event keeps holds in every
    reachable state. *)
Lemma reachable_invariant (P : State → Prop) :
  P (mount props) →
  (∀ s e, P s → P (step props s e)) →
  ∀ s, Reachable props s → P s.
Proof.
  intros Hm Hs s [events ->]. unfold run.
  generalize (mount props) Hm. induction events as [|e events IH];
    intros s0 H0; [exact H0|].
  simpl. apply IH, Hs, H0.
Qed.

Lemma currentQuestion_range (s : State) (q : Question) :
  currentQuestion props s = Some q →
  (0 ≤ currentIdx s < Z.of_nat (length (questions props)))%Z ∧
  q ∈ questions props.
Proof.
  unfold currentQuestion, question_at.
  destruct (Z.ltb_spec (currentIdx s) 0); [discriminate|]. intros Hq.
  split; [|eapply list_elem_of_lookup_2, Hq].
  apply lookup_lt_Some in Hq. lia.
Qed.

Lemma currentQuestion_in_range (s : State) :
  (0 ≤ currentIdx s < Z.of_nat (length (questions props)))%Z →
  is_Some (currentQuestion props s).
Proof.
  intros H. unfold currentQuestion, question_at.
  destruct (Z.ltb_spec (currentIdx s) 0); [lia|].
  apply lookup_lt_is_Some. lia.
Qed.

(** The fields that a click can change, control by control. *)
Lemma click_cases (c : Control) (s : State) :
  click props c s = s ∨
  (∃ opt q, c = OptionButton opt ∧ currentQuestion props s = Some q ∧
            opt ∈ all_answers q ∧
            handleOptionToggle props opt s = Some (click props c s)) ∨
  (c = PreviousButton ∧ currentIdx s ≠ 0%Z ∧
   click props c s = setCurrentIdx (Z.max 0 (currentIdx s - 1)) s) ∨
  (c = NextButton ∧ isLastQuestion props s = false ∧
   click props c s
   = setCurrentIdx (Z.min (Z.of_nat (length (questions props)) - 1)
                          (currentIdx s + 1)) s) ∨
  (c = FinishButton ∧ click props c s = setShowConfirmModal true s) ∨
  (c = CancelButton ∧ click props c s = setShowConfirmModal false s) ∨
  (c = ConfirmButton ∧ click props c s = onFinish (answers s) s).
Proof.
  unfold click, clickable.
  destruct (currentQuestion props s) as [q|] eqn:Hq; [|now left].
  destruct c as [opt| | | | |]; simpl.
  - destruct (Js.arr_includes (all_answers q) opt) eqn:E; [|now left].
    right. left. exists opt, q. apply arr_includes_true in E.
    unfold handleOptionToggle. rewrite Hq. simpl. auto.
  - destruct (Z.eqb_spec (currentIdx s) 0); simpl; [now left|].
    right. right. left. auto.
  - destruct (isLastQuestion props s) eqn:E; simpl; [now left|].
    right. right. right. left. auto.
  - destruct (isLastQuestion props s && isAllAnswered props s); [|now left].
    do 4 right. left. auto.
  - destruct (showConfirmModal s); [|now left]. do 5 right. left. auto.
  - destruct (showConfirmModal s); [|now left]. do 6 right. auto.
Qed.

Lemma handleOptionToggle_fields (opt : string) (s s' : State) :
  handleOptionToggle props opt s = Some s' →
  currentIdx s' = currentIdx s ∧ showConfirmModal s' = showConfirmModal s ∧
  timeLeft s' = timeLeft s ∧ onFinish_calls s' = onFinish_calls s ∧
  interval s' = timer_effect props (answers s').
Proof.
  unfold handleOptionToggle.
  destruct (currentQuestion props s); [|discriminate].
  intros [= <-]. repeat split.
Qed.

Lemma tick_fields (s : State) :
  currentIdx (tick s) = currentIdx s ∧ answers (tick s) = answers s ∧
  showConfirmModal (tick s) = showConfirmModal s.
Proof.
  unfold tick. destruct (interval s); [|repeat split].
  destruct (timeLeft s <=? 1)%Z; repeat split.
Qed.

(** X13: the session always has a current question.  With a non-empty
    list of questions, in every state that ticks and clicks can reach,
    the index is within the list, so the current question exists: the
    buttons for the previous and the next question never take the index
    out of it. *)
Theorem current_question_exists (s : State) :
  questions props ≠ [] → Reachable props s →
  (0 ≤ currentIdx s < Z.of_nat (length (questions props)))%Z ∧
  is_Some (currentQuestion props s).
Proof.
  intros Hne Hr.
  assert (H : (0 ≤ currentIdx s < Z.of_nat (length (questions props)))%Z).
  { revert s Hr. apply reachable_invariant.
    - simpl. destruct (questions props); [congruence|]. simpl. lia.
    - intros s [|c] H; simpl.
      + destruct (tick_fields s) as (-> & _). exact H.
      + destruct (click_cases c s)
          as [->|[(opt & q & _ & _ & _ & E)|[(_ & _ & ->)|[(_ & _ & ->)|
              [(_ & ->)|[(_ & ->)|(_ & ->)]]]]]]; simpl; try lia.
        destruct (handleOptionToggle_fields _ _ _ E) as (-> & _). exact H. }
  split; [exact H|]. apply currentQuestion_in_range, H.
Qed.

(** *** The time left *)

Lemma click_timeLeft (c : Control) (s : State) :
  timeLeft (click props c s) = timeLeft s.
Proof.
  destruct (click_cases c s)
    as [->|[(opt & q & _ & _ & _ & E)|[(_ & _ & ->)|[(_ & _ & ->)|
        [(_ & ->)|[(_ & ->)|(_ & ->)]]]]]]; try reflexivity.
  now destruct (handleOptionToggle_fields _ _ _ E) as (_ & _ & -> & _).
Qed.

(** X14: the time left stays between zero and the limit and never goes
    up.  In every reachable state of a session with a positive time limit
    [timeLeft] is at least 0 and at most the limit, and no event, tick or
    click, makes it larger. *)
Theorem time_left_bounds (s : State) :
  (0 < timeLimit props)%Z → Reachable props s →
  (0 ≤ timeLeft s ≤ timeLimit props)%Z ∧
  ∀ e, (timeLeft (step props s e) ≤ timeLeft s)%Z.
Proof.
  intros Hl Hr.
  assert (H : (0 ≤ timeLeft s ≤ timeLimit props)%Z).
  { revert s Hr. apply reachable_invariant; [simpl; lia|].
    intros s [|c] H; simpl; [|now rewrite click_timeLeft].
    unfold tick. destruct (interval s); [|exact H].
    destruct (Z.leb_spec (timeLeft s) 1); simpl; lia. }
  split; [exact H|]. intros [|c]; simpl; [|rewrite click_timeLeft; lia].
  unfold tick. destruct (interval s); [|lia].
  destruct (Z.leb_spec (timeLeft s) 1); simpl; lia.
Qed.

(** *** Sessions without time limit *)

Definition is_click (e : Event) : bool :=
  match e with
  | Tick => false
  | Click _ => true
  end.

Lemma click_interval_none (c : Control) (s : State) :
  (timeLimit props ≤ 0)%Z → interval s = None →
  interval (click props c s) = None.
Proof.
  intros Hl Hi.
  destruct (click_cases c s)
    as [->|[(opt & q & _ & _ & _ & E)|[(_ & _ & ->)|[(_ & _ & ->)|
        [(_ & ->)|[(_ & ->)|(_ & ->)]]]]]]; try exact Hi.
  destruct (handleOptionToggle_fields _ _ _ E) as (_ & _ & _ & _ & ->).
  unfold timer_effect. destruct (Z.leb_spec (timeLimit props) 0); [reflexivity|lia].
Qed.

Lemma fold_without_ticks (events : list Event) :
  (timeLimit props ≤ 0)%Z →
  ∀ s, interval s = None →
       fold_left (step props) events s
       = fold_left (step props) (List.filter is_click events) s ∧
       interval (fold_left (step props) events s) = None ∧
       timeLeft (fold_left (step props) events s) = timeLeft s.
Proof.
  intros Hl. induction events as [|[|c] events IH]; intros s Hi.
  - now repeat split.
  - simpl. rewrite (tick_no_interval s Hi). now apply IH.
  - simpl. destruct (IH (click props c s)) as (E1 & E2 & E3).
    + now apply click_interval_none.
    + rewrite click_timeLeft in E3. now repeat split.
Qed.

(** X15: without a time limit there is no countdown.  When [timeLimit] is
    zero or negative, ticks have no effect at all: a run of events ends
    in the same state as the run of its clicks alone, a further tick
    changes nothing, and [timeLeft] stays at the value of [timeLimit]; so
    [onFinish] can then be called by the confirm button only. *)
Theorem no_limit_no_countdown (events : list Event) :
  (timeLimit props ≤ 0)%Z →
  run props events = run props (List.filter is_click events) ∧
  tick (run props events) = run props events ∧
  timeLeft (run props events) = timeLimit props.
Proof.
  intros Hl. unfold run.
  assert (Hm : interval (mount props) = None).
  { simpl. unfold timer_effect.
    destruct (Z.leb_spec (timeLimit props) 0); [reflexivity|lia]. }
  destruct (fold_without_ticks events Hl (mount props) Hm) as (E1 & E2 & E3).
  split; [exact E1|]. split; [now apply tick_no_interval|exact E3].
Qed.

(** *** What the answers hold *)

(** The new selection that [handleOptionToggle] stores for the current
    question [q]. *)
Definition new_selection (q : Question) (opt : string)
           (currentSelected : list string) : list string :=
  match question_type q with
  | single_choice => [opt]
  | multiple_choice => toggle opt currentSelected
  end.

(** An event leaves the answers alone unless it is a click on an option
    button, which exists only for an answer of the current question. *)
Lemma step_answers (s : State) (e : Event) :
  answers (step props s e) = answers s ∨
  ∃ opt q, currentQuestion props s = Some q ∧ opt ∈ all_answers q ∧
           answers (step props s e)
           = <[id q := new_selection q opt (selected (answers s) (id q))]>
               (answers s).
Proof.
  destruct e as [|c]; simpl.
  - left. now destruct (tick_fields s) as (_ & -> & _).
  - destruct (click_cases c s)
      as [->|[(opt & q & _ & Hq & Hin & E)|[(_ & _ & ->)|[(_ & _ & ->)|
          [(_ & ->)|[(_ & ->)|(_ & ->)]]]]]]; try (now left).
    right. exists opt, q. split; [exact Hq|]. split; [exact Hin|].
    unfold handleOptionToggle in E. rewrite Hq in E.
    injection E as <-. reflexivity.
Qed.

(** What [onFinish] is called with is the answers of that moment. *)
Lemma step_onFinish_calls (s : State) (e : Event) :
  (interval s = None ∨ interval s = Some (answers s)) →
  onFinish_calls (step props s e) = onFinish_calls s ∨
  onFinish_calls (step props s e) = onFinish_calls s ++ [answers s].
Proof.
  intros Hi. destruct e as [|c]; simpl.
  - unfold tick. destruct (interval s) as [captured|] eqn:E; [|now left].
    destruct Hi as [Hi|Hi]; [discriminate|]. injection Hi as ->.
    destruct (timeLeft s <=? 1)%Z; [now right|now left].
  - destruct (click_cases c s)
      as [->|[(opt & q & _ & _ & _ & E)|[(_ & _ & ->)|[(_ & _ & ->)|
          [(_ & ->)|[(_ & ->)|(_ & ->)]]]]]]; try (now left); [|now right].
    left. now destruct (handleOptionToggle_fields _ _ _ E) as (_ & _ & _ & -> & _).
Qed.

Lemma toggle_members (opt x : string) (l : list string) :
  x ∈ toggle opt l → x ∈ l ∨ x = opt.
Proof.
  unfold toggle. destruct (Js.arr_includes l opt).
  - intros [_ H]%list_elem_of_filter. now left.
  - intros [H| ->%list_elem_of_singleton]%elem_of_app; [now left|now right].
Qed.

Lemma new_selection_members (q : Question) (opt x : string)
      (l : list string) :
  x ∈ new_selection q opt l → x ∈ l ∨ x = opt.
Proof.
  unfold new_selection. destruct (question_type q).
  - intros ->%list_elem_of_singleton. now right.
  - apply toggle_members.
Qed.

Lemma selected_members (a : UserAnswers) (k : option Z) (x : string) :
  x ∈ selected a k → ∃ l, a !! k = Some l ∧ x ∈ l.
Proof.
  unfold selected. destruct (a !! k) as [l|]; simpl; [eauto|].
  intros H. inversion H.
Qed.

(** Every key of the map is the id of a question, and every option stored
    under it is an answer of a question with that id. *)
Definition offered (a : UserAnswers) : Prop :=
  ∀ k l, a !! k = Some l →
         (∃ q, q ∈ questions props ∧ id q = k) ∧
         ∀ x, x ∈ l → ∃ q, q ∈ questions props ∧ id q = k ∧ x ∈ all_answers q.

Lemma offered_step (s : State) (e : Event) :
  offered (answers s) → offered (answers (step props s e)).
Proof.
  intros Ho. destruct (step_answers s e) as [->|(opt & q & Hq & Hin & ->)];
    [exact Ho|].
  destruct (currentQuestion_range s q Hq) as [_ Hmem].
  intros k l. destruct (decide (id q = k)) as [<-|Hne].
  - rewrite lookup_insert_eq. intros [= <-]. split; [eauto|].
    intros x [Hx| ->]%new_selection_members; [|eauto].
    apply selected_members in Hx as (l0 & Hl0 & Hx).
    now apply (Ho _ _ Hl0).
  - rewrite lookup_insert_ne by exact Hne. apply Ho.
Qed.

(** X16: the answers hold nothing that was not offered.  In every
    reachable state, and in every map that [onFinish] was called with,
    each key is the id of a question of the quiz and each option stored
    under it is one of the answers of a question with that id. *)
Theorem answers_only_offered (s : State) :
  Reachable props s →
  offered (answers s) ∧ Forall offered (onFinish_calls s).
Proof.
  intros Hr.
  assert (H : offered (answers s) ∧ Forall offered (onFinish_calls s) ∧
              timer_current props s).
  { revert s Hr. apply reachable_invariant.
    - split; [|split; [constructor|apply timer_current_mount]].
      intros k l. simpl. now rewrite lookup_empty.
    - intros s e (Ho & Hc & Ht). split; [now apply offered_step|]. split.
      + destruct (step_onFinish_calls s e (proj1 Ht)) as [->| ->]; [exact Hc|].
        apply Forall_app. split; [exact Hc|].
        constructor; [exact Ho|constructor].
      + now apply timer_current_step. }
  destruct H as (Ho & Hc & _). now split.
Qed.

Lemma toggle_NoDup (opt : string) (l : list string) :
  NoDup l → NoDup (toggle opt l).
Proof.
  intros H. unfold toggle. destruct (Js.arr_includes l opt) eqn:E.
  - now apply NoDup_filter.
  - apply arr_includes_false in E. apply NoDup_app. split; [exact H|].
    split; [|apply NoDup_singleton].
    intros x Hx ->%list_elem_of_singleton. now apply E.
Qed.

Lemma selected_NoDup (a : UserAnswers) (k : option Z) :
  (∀ k' l, a !! k' = Some l → NoDup l) → NoDup (selected a k).
Proof.
  intros H. unfold selected. destruct (a !! k) as [l|] eqn:E; simpl.
  - eapply H, E.
  - constructor.
Qed.

(** X17: no option is selected twice.  In every reachable state the array
    of selected options of every question holds each option at most
    once, whatever the order of the clicks. *)
Theorem selections_duplicate_free (s : State) :
  Reachable props s → ∀ k, NoDup (selected (answers s) k).
Proof.
  intros Hr k. apply selected_NoDup. revert s Hr.
  apply (reachable_invariant
           (λ s, ∀ k' l, answers s !! k' = Some l → NoDup l)).
  - intros k' l. simpl. now rewrite lookup_empty.
  - intros s e H.
    destruct (step_answers s e) as [->|(opt & q & _ & _ & ->)]; [exact H|].
    intros k' l. destruct (decide (id q = k')) as [<-|Hne].
    + rewrite lookup_insert_eq. intros [= <-]. unfold new_selection.
      destruct (question_type q); [apply NoDup_singleton|].
      now apply toggle_NoDup, selected_NoDup.
    + rewrite lookup_insert_ne by exact Hne. apply H.
Qed.

Lemma unique_id (qs : list Question) (q q' : Question) :
  NoDup (map id qs) → q ∈ qs → q' ∈ qs → id q = id q' → q = q'.
Proof.
  induction qs as [|x qs IH]; intros Hnd Hq Hq' E; [inversion Hq|].
  simpl in Hnd. apply NoDup_cons in Hnd as [Hx Hnd].
  assert (Hmem : ∀ y, y ∈ qs → id y ≠ id x).
  { intros y Hy Ey. apply Hx. rewrite <- Ey.
    apply list_elem_of_fmap. eauto. }
  apply elem_of_cons in Hq as [->|Hq]; apply elem_of_cons in Hq' as [->|Hq'].
  - reflexivity.
  - exfalso. now apply (Hmem q' Hq').
  - exfalso. now apply (Hmem q Hq).
  - now apply IH.
Qed.

(** X18: a single-choice question never has two selected options.  When
    the questions of the quiz have pairwise different ids, in every
    reachable state every single-choice question has at most one selected
    option. *)
Theorem single_choice_at_most_one (s : State) (q : Question) :
  NoDup (map id (questions props)) → Reachable props s →
  q ∈ questions props → question_type q = single_choice →
  (length (selected (answers s) (id q)) ≤ 1)%nat.
Proof.
  intros Hnd Hr. revert q. revert s Hr.
  apply (reachable_invariant
           (λ s, ∀ q, q ∈ questions props → question_type q = single_choice →
                      (length (selected (answers s) (id q)) ≤ 1)%nat)).
  - intros q _ _. simpl. unfold selected. rewrite lookup_empty. simpl. lia.
  - intros s e H q Hq Ht.
    destruct (step_answers s e) as [->|(opt & q0 & Hq0 & _ & ->)];
      [now apply H|].
    destruct (currentQuestion_range s q0 Hq0) as [_ Hmem].
    destruct (decide (id q0 = id q)) as [E|Hne].
    + assert (q0 = q) as -> by (eapply unique_id; eauto).
      rewrite selected_insert_eq. unfold new_selection. rewrite Ht.
      simpl. lia.
    + rewrite selected_insert_ne by exact Hne. now apply H.
Qed.

(** *** Single-choice questions *)

(** X19: on a single-choice question the last click decides.  Whatever
    was selected before, [handleOptionToggle] with an option leaves
    exactly this option selected; a second call with another option
    replaces it, and a second call with the same option keeps it: a
    single-choice answer can be changed but not taken back. *)
Theorem single_choice_last_click (o1 o2 : string) (s : State) (q : Question) :
  currentQuestion props s = Some q →
  question_type q = single_choice →
  ∃ s1 s2,
    handleOptionToggle props o1 s = Some s1 ∧
    selected (answers s1) (id q) = [o1] ∧
    handleOptionToggle props o2 s1 = Some s2 ∧
    selected (answers s2) (id q) = [o2] ∧
    answered (answers s1) (id q) = true ∧
    answered (answers s2) (id q) = true.
Proof.
  intros Hq Ht.
  assert (Hsel : ∀ o s0, currentQuestion props s0 = Some q →
                         handleOptionToggle props o s0
                         = Some (setAnswers props
                                   (<[id q := [o]]> (answers s0)) s0)).
  { intros o s0 H0. unfold handleOptionToggle. now rewrite H0, Ht. }
  exists (setAnswers props (<[id q := [o1]]> (answers s)) s).
  eexists. split; [exact (Hsel o1 s Hq)|].
  split; [apply selected_insert_eq|].
  split; [apply Hsel; now rewrite currentQuestion_setAnswers|].
  unfold answered. cbn [answers setAnswers]. rewrite !selected_insert_eq.
  repeat split.
Qed.

(** *** Going back and forth *)

Lemma setCurrentIdx_same (s : State) : setCurrentIdx (currentIdx s) s = s.
Proof. now destruct s. Qed.

Lemma setShowConfirmModal_same (s : State) :
  setShowConfirmModal (showConfirmModal s) s = s.
Proof. now destruct s. Qed.

Lemma click_previous (s : State) (q : Question) :
  currentQuestion props s = Some q → currentIdx s ≠ 0%Z →
  click props PreviousButton s = setCurrentIdx (currentIdx s - 1) s.
Proof.
  intros Hq Hne. destruct (currentQuestion_range s q Hq) as [Hr _].
  unfold click, clickable. rewrite Hq.
  destruct (Z.eqb_spec (currentIdx s) 0); [contradiction|]. simpl.
  f_equal. lia.
Qed.

Lemma click_next (s : State) (q : Question) :
  currentQuestion props s = Some q → isLastQuestion props s = false →
  click props NextButton s = setCurrentIdx (currentIdx s + 1) s.
Proof.
  intros Hq Hl. destruct (currentQuestion_range s q Hq) as [Hr _].
  unfold click, clickable. rewrite Hq, Hl. simpl.
  unfold isLastQuestion in Hl. apply Z.eqb_neq in Hl. f_equal. lia.
Qed.

(** X20: the next button and the previous button undo each other.  Where
    the next button can be clicked, a click on it followed by a click on
    the previous button gives back the same state, and the same holds in
    the other order where the previous button can be clicked: moving
    between questions changes the index and nothing else. *)
Theorem next_previous_round_trip (s : State) :
  (clickable props NextButton s = true →
   click props PreviousButton (click props NextButton s) = s) ∧
  (clickable props PreviousButton s = true →
   click props NextButton (click props PreviousButton s) = s).
Proof.
  unfold clickable at 1 2.
  destruct (currentQuestion props s) as [q|] eqn:Hq;
    [|split; discriminate].
  destruct (currentQuestion_range s q Hq) as [Hr _].
  split; intros Hc; apply negb_true_iff in Hc.
  - rewrite (click_next s q Hq Hc).
    unfold isLastQuestion in Hc. apply Z.eqb_neq in Hc.
    assert (Hin : is_Some (currentQuestion props
                             (setCurrentIdx (currentIdx s + 1) s)))
      by (apply currentQuestion_in_range; simpl; lia).
    destruct Hin as [q' Hq'].
    rewrite (click_previous _ q' Hq') by (simpl; lia).
    destruct s; unfold setCurrentIdx; simpl in *. f_equal. lia.
  - apply Z.eqb_neq in Hc. rewrite (click_previous s q Hq Hc).
    assert (Hin : is_Some (currentQuestion props
                             (setCurrentIdx (currentIdx s - 1) s)))
      by (apply currentQuestion_in_range; simpl; lia).
    destruct Hin as [q' Hq'].
    rewrite (click_next _ q' Hq').
    + destruct s; unfold setCurrentIdx; simpl in *. f_equal. lia.
    + unfold isLastQuestion. simpl. apply Z.eqb_neq. lia.
Qed.

(** X21: cancelling the dialog undoes opening it.  In a state whose
    dialog is closed and whose finish button can be clicked, a click on
    the finish button opens the dialog and changes nothing else, and a
    click on the cancel button then gives back the same state, without
    any call of [onFinish]. *)
Theorem finish_cancel_round_trip (s : State) :
  showConfirmModal s = false →
  clickable props FinishButton s = true →
  click props FinishButton s = setShowConfirmModal true s ∧
  click props CancelButton (click props FinishButton s) = s ∧
  onFinish_calls (click props FinishButton s) = onFinish_calls s.
Proof.
  intros Hm Hc.
  assert (E : click props FinishButton s = setShowConfirmModal true s)
    by (unfold click; now rewrite Hc).
  split; [exact E|]. rewrite E. split; [|reflexivity].
  unfold clickable in Hc.
  destruct (currentQuestion props s) as [q|] eqn:Hq; [|discriminate].
  unfold click, clickable.
  change (currentQuestion props (setShowConfirmModal true s))
    with (currentQuestion props s).
  rewrite Hq. simpl. destruct s; simpl in *. now subst.
Qed.

(** *** Counting down *)

Lemma iter_tick_counts_down (k : nat) :
  ∀ s, Reachable props s → (0 < timeLimit props)%Z →
       onFinish_calls s = [] → (Z.of_nat k < timeLeft s)%Z →
       Nat.iter k tick s
       = mkState (currentIdx s) (answers s) (showConfirmModal s)
                 (timeLeft s - Z.of_nat k) (interval s) (onFinish_calls s) ∧
       Reachable props (Nat.iter k tick s).
Proof.
  induction k as [|k IH]; intros s Hr Hl Hc Ht.
  - simpl. split; [|exact Hr]. destruct s; simpl. f_equal. lia.
  - destruct (IH s Hr Hl Hc ltac:(lia)) as [E Hr'].
    simpl Nat.iter. split; [|exact (Reachable_step props _ Tick Hr')].
    rewrite (tick_counts_down props _ Hr' Hl); rewrite E; simpl;
      [f_equal; lia|exact Hc|lia].
Qed.

(** X22: the countdown ends the quiz after as many ticks as there are
    seconds left.  From a reachable state of a session with a positive
    limit in which [onFinish] was not yet called and [n + 1] seconds are
    left, [k] ticks with no click between them, for [k] up to [n], leave
    [n + 1 - k] seconds and call nothing; the tick after them sets the
    time left to 0 and is the first call of [onFinish], with the answers
    of the session, whether the dialog is open or not. *)
Theorem countdown_reaches_zero (n : nat) (s : State) :
  Reachable props s → (0 < timeLimit props)%Z →
  onFinish_calls s = [] → timeLeft s = Z.of_nat (S n) →
  (∀ k, (k ≤ n)%nat →
        timeLeft (Nat.iter k tick s) = (Z.of_nat (S n) - Z.of_nat k)%Z ∧
        onFinish_calls (Nat.iter k tick s) = []) ∧
  timeLeft (Nat.iter (S n) tick s) = 0%Z ∧
  onFinish_calls (Nat.iter (S n) tick s) = [answers s].
Proof.
  intros Hr Hl Hc Ht. split.
  - intros k Hk.
    destruct (iter_tick_counts_down k s Hr Hl Hc ltac:(lia)) as [-> _].
    simpl. split; [lia|exact Hc].
  - destruct (iter_tick_counts_down n s Hr Hl Hc ltac:(lia)) as [E Hr'].
    simpl Nat.iter.
    rewrite (tick_expires props _ Hr' Hl); rewrite E; simpl;
      [now split|exact Hc|lia].
Qed.

End Session.

(** The fresh sample session after two clicks on the next button and two
    ticks. *)
Lemma current_question_exists_witness :
  questions (sample 5) ≠ [] ∧
  Reachable (sample 5)
            (run (sample 5) [Click NextButton; Tick; Click NextButton; Tick]) ∧
  (0 ≤ currentIdx (run (sample 5)
                     [Click NextButton; Tick; Click NextButton; Tick])
   < Z.of_nat (length (questions (sample 5))))%Z ∧
  is_Some (currentQuestion (sample 5)
             (run (sample 5) [Click NextButton; Tick; Click NextButton; Tick])).
Proof.
  assert (H1 : questions (sample 5) ≠ []) by discriminate.
  assert (H2 : Reachable (sample 5)
                 (run (sample 5) [Click NextButton; Tick; Click NextButton; Tick]))
    by (eexists; reflexivity).
  split; [exact H1|]. split; [exact H2|].
  exact (current_question_exists (sample 5) _ H1 H2).
Defined.

(** *** The sample session again *)

Definition second_question : Question :=
  mkQuestion (Some 2%Z) "Platz" single_choice ["Ja"; "Nein"] ["Nein"]
             (CatString "Koalatest").

(** All questions answered, the last one shown, the dialog not yet open. *)
Definition state_before_dialog : State :=
  run (sample 2)
      [ Click (OptionButton "Ja"); Click NextButton;
        Click (OptionButton "Ja"); Click NextButton;
        Click (OptionButton "Ja") ].

Lemma state_before_dialog_reachable : Reachable (sample 2) state_before_dialog.
Proof. eexists. reflexivity. Qed.

(** The time left of [state_dialog]. *)
Lemma time_left_bounds_witness :
  (0 < timeLimit (sample 2))%Z ∧
  Reachable (sample 2) state_dialog ∧
  (0 ≤ timeLeft state_dialog ≤ timeLimit (sample 2))%Z ∧
  ∀ e, (timeLeft (step (sample 2) state_dialog e) ≤ timeLeft state_dialog)%Z.
Proof.
  assert (H1 : (0 < timeLimit (sample 2))%Z) by (simpl; lia).
  split; [exact H1|]. split; [exact state_dialog_reachable|].
  exact (time_left_bounds (sample 2) state_dialog H1 state_dialog_reachable).
Defined.

(** Ticks around a click in the sample session without limit. *)
Lemma no_limit_no_countdown_witness :
  (timeLimit (sample 0) ≤ 0)%Z ∧
  run (sample 0) [Tick; Click (OptionButton "Ja"); Tick; Tick]
  = run (sample 0)
        (List.filter is_click [Tick; Click (OptionButton "Ja"); Tick; Tick]) ∧
  tick (run (sample 0) [Tick; Click (OptionButton "Ja"); Tick; Tick])
  = run (sample 0) [Tick; Click (OptionButton "Ja"); Tick; Tick] ∧
  timeLeft (run (sample 0) [Tick; Click (OptionButton "Ja"); Tick; Tick])
  = timeLimit (sample 0).
Proof.
  assert (H : (timeLimit (sample 0) ≤ 0)%Z) by (simpl; lia).
  split; [exact H|].
  exact (no_limit_no_countdown (sample 0)
           [Tick; Click (OptionButton "Ja"); Tick; Tick] H).
Defined.

(** The answers of [state_dialog]. *)
Lemma answers_only_offered_witness :
  Reachable (sample 2) state_dialog ∧
  offered (sample 2) (answers state_dialog) ∧
  Forall (offered (sample 2)) (onFinish_calls state_dialog).
Proof.
  split; [exact state_dialog_reachable|].
  exact (answers_only_offered (sample 2) state_dialog state_dialog_reachable).
Defined.

Lemma selections_duplicate_free_witness :
  Reachable (sample 2) state_dialog ∧
  ∀ k, NoDup (selected (answers state_dialog) k).
Proof.
  split; [exact state_dialog_reachable|].
  exact (selections_duplicate_free (sample 2) state_dialog
           state_dialog_reachable).
Defined.

Lemma sample_ids_differ : NoDup (map id (questions (sample 2))).
Proof. apply (bool_decide_unpack _). vm_compute. exact I. Qed.

Lemma second_question_in_sample : second_question ∈ questions (sample 2).
Proof. apply elem_of_cons. right. apply elem_of_cons. now left. Qed.

(** The second question of [state_dialog]. *)
Lemma single_choice_at_most_one_witness :
  NoDup (map id (questions (sample 2))) ∧
  Reachable (sample 2) state_dialog ∧
  second_question ∈ questions (sample 2) ∧
  question_type second_question = single_choice ∧
  (length (selected (answers state_dialog) (id second_question)) ≤ 1)%nat.
Proof.
  split; [exact sample_ids_differ|]. split; [exact state_dialog_reachable|].
  split; [exact second_question_in_sample|]. split; [reflexivity|].
  exact (single_choice_at_most_one (sample 2) state_dialog second_question
           sample_ids_differ state_dialog_reachable second_question_in_sample
           eq_refl).
Defined.

(** Two clicks on the second question of the sample session. *)
Lemma single_choice_last_click_witness :
  currentQuestion (sample 0) (run (sample 0) [Click NextButton])
  = Some second_question ∧
  question_type second_question = single_choice ∧
  ∃ s1 s2,
    handleOptionToggle (sample 0) "Ja" (run (sample 0) [Click NextButton])
    = Some s1 ∧
    selected (answers s1) (id second_question) = ["Ja"] ∧
    handleOptionToggle (sample 0) "Nein" s1 = Some s2 ∧
    selected (answers s2) (id second_question) = ["Nein"] ∧
    answered (answers s1) (id second_question) = true ∧
    answered (answers s2) (id second_question) = true.
Proof.
  assert (H : currentQuestion (sample 0) (run (sample 0) [Click NextButton])
              = Some second_question) by reflexivity.
  split; [exact H|]. split; [reflexivity|].
  exact (single_choice_last_click (sample 0) "Ja" "Nein"
           (run (sample 0) [Click NextButton]) second_question H eq_refl).
Defined.

(** Opening and cancelling the dialog of the sample session. *)
Lemma finish_cancel_round_trip_witness :
  showConfirmModal state_before_dialog = false ∧
  clickable (sample 2) FinishButton state_before_dialog = true ∧
  click (sample 2) FinishButton state_before_dialog
  = setShowConfirmModal true state_before_dialog ∧
  click (sample 2) CancelButton
        (click (sample 2) FinishButton state_before_dialog)
  = state_before_dialog ∧
  onFinish_calls (click (sample 2) FinishButton state_before_dialog)
  = onFinish_calls state_before_dialog.
Proof.
  assert (H1 : showConfirmModal state_before_dialog = false)
    by (vm_compute; reflexivity).
  assert (H2 : clickable (sample 2) FinishButton state_before_dialog = true)
    by (vm_compute; reflexivity).
  split; [exact H1|]. split; [exact H2|].
  exact (finish_cancel_round_trip (sample 2) state_before_dialog H1 H2).
Defined.

Lemma mount_reachable (props : Props) : Reachable props (mount props).
Proof. exists []. reflexivity. Qed.

(** Five seconds on the clock of a fresh session. *)
Lemma countdown_reaches_zero_witness :
  Reachable (sample 5) (mount (sample 5)) ∧
  (0 < timeLimit (sample 5))%Z ∧
  onFinish_calls (mount (sample 5)) = [] ∧
  timeLeft (mount (sample 5)) = Z.of_nat 5 ∧
  (∀ k, (k ≤ 4)%nat →
        timeLeft (Nat.iter k tick (mount (sample 5)))
        = (Z.of_nat 5 - Z.of_nat k)%Z ∧
        onFinish_calls (Nat.iter k tick (mount (sample 5))) = []) ∧
  timeLeft (Nat.iter 5 tick (mount (sample 5))) = 0%Z ∧
  onFinish_calls (Nat.iter 5 tick (mount (sample 5)))
  = [answers (mount (sample 5))].
Proof.
  assert (H1 : (0 < timeLimit (sample 5))%Z) by (simpl; lia).
  split; [exact (mount_reachable (sample 5))|]. split; [exact H1|].
  split; [reflexivity|]. split; [reflexivity|].
  exact (countdown_reaches_zero (sample 5) 4 (mount (sample 5))
           (mount_reachable (sample 5)) H1 eq_refl eq_refl).
Defined.

End SessionProofs.

(** ** The clock text *)

Module ClockProofs.
Import QuizGame.

Definition digit (c : ascii) : option Z :=
  let n := Z.of_nat (nat_of_ascii c) in
  if ((48 <=? n) && (n <=? 57))%Z then Some (n - 48)%Z else None.

(** The seconds that a text of the form mm:ss stands for. *)
Definition clock_seconds (text : string) : option Z :=
  match text with
  | String a (String b (String ":" (String c (String d "")))) =>
      match digit a, digit b, digit c, digit d with
      | Some a, Some b, Some c, Some d =>
          Some ((10 * a + b) * 60 + (10 * c + d))%Z
      | _, _, _, _ => None
      end
  | _ => None
  end.

Definition reads_back (n : nat) : bool :=
  match clock_seconds (formatTime (Z.of_nat n)) with
  | Some m => (m =? Z.of_nat n)%Z
  | None => false
  end.

Lemma all_read_back : forallb reads_back (seq 0 (Z.to_nat 6000)) = true.
Proof. vm_compute. reflexivity. Qed.

Lemma clock_seconds_formatTime (seconds : Z) :
  (0 ≤ seconds < 6000)%Z → clock_seconds (formatTime seconds) = Some seconds.
Proof.
  intros H. pose proof all_read_back as Hall.
  rewrite forallb_forall in Hall.
  specialize (Hall (Z.to_nat seconds)).
  unfold reads_back in Hall. rewrite Z2Nat.id in Hall by lia.
  destruct (clock_seconds (formatTime seconds)) as [m|].
  - f_equal. apply Z.eqb_eq, Hall, in_seq. lia.
  - discriminate Hall. apply in_seq. lia.
Qed.

Lemma clock_seconds_length (text : string) (v : Z) :
  clock_seconds text = Some v →
  String.length text = 5%nat ∧ String.get 2 text = Some ":"%char.
Proof.
  destruct text as [|a [|b [|c r]]]; try discriminate.
  destruct c as [[] [] [] [] [] [] [] []]; try discriminate.
  destruct r as [|d [|e [|f r]]]; try discriminate.
  intros _. split; reflexivity.
Qed.

(** X23: below one hundred minutes the clock text shows the time exactly.
    For a whole number of seconds from 0 to 5999, [formatTime] gives a
    text of five characters with a colon in the middle, and two different
    numbers of seconds never give the same text. *)
Theorem formatTime_shows_time (a b : Z) :
  (0 ≤ a < 6000)%Z → (0 ≤ b < 6000)%Z →
  String.length (formatTime a) = 5%nat ∧
  String.get 2 (formatTime a) = Some ":"%char ∧
  (formatTime a = formatTime b → a = b).
Proof.
  intros Ha Hb.
  pose proof (clock_seconds_formatTime a Ha) as Ea.
  pose proof (clock_seconds_formatTime b Hb) as Eb.
  destruct (clock_seconds_length _ _ Ea) as [Hlen Hcol].
  split; [exact Hlen|]. split; [exact Hcol|].
  intros E. rewrite E in Ea. congruence.
Qed.

(** One minute and five seconds, and half an hour. *)
Lemma formatTime_shows_time_witness :
  (0 ≤ 65 < 6000)%Z ∧ (0 ≤ 1800 < 6000)%Z ∧
  String.length (formatTime 65) = 5%nat ∧
  String.get 2 (formatTime 65) = Some ":"%char ∧
  (formatTime 65 = formatTime 1800 → 65%Z = 1800%Z).
Proof.
  assert (H1 : (0 ≤ 65 < 6000)%Z) by lia.
  assert (H2 : (0 ≤ 1800 < 6000)%Z) by lia.
  split; [exact H1|]. split; [exact H2|].
  exact (formatTime_shows_time 65 1800 H1 H2).
Defined.

(** The text at some times, also outside that range: the minutes are not
    cut at two digits, and a negative time shows two minus signs. *)
Example formatTime_samples :
  formatTime 0 = "00:00" ∧ formatTime 65 = "01:05" ∧
  formatTime 599 = "09:59" ∧ formatTime 1800 = "30:00" ∧
  formatTime 6000 = "100:00" ∧ formatTime (-1) = "-1:-1".
Proof. repeat split; vm_compute; reflexivity. Qed.

End ClockProofs.
